(** * airtable.js: Record, Table and the rate-limit retry of the Dispatcher

    A shallow embedding of [lib/record.js], [lib/table.js] and the
    configuration part of [lib/airtable.js].

    - JavaScript values are the values [JSON.parse] yields, plus
      [undefined]; numbers are integers, strings are ASCII, objects are
      finite maps from property names to values.
    - A method that ends in [runAction(..., callback)] is an [action_call]:
      the Action Descriptor it hands to the dispatcher together with the
      callback that consumes the dispatcher's reply.
    - Methods are taken in their callback form: [callbackToPromise] only
      adapts a trailing callback to a promise.
    - An object is its own properties.  What it inherits from its
      prototype ([constructor], [toString], [__proto__], ...) is no JSON
      value: a read under a name chosen by the caller says whether the
      object has the property itself ([own_prop]), and a write that goes
      to the setter of [__proto__] is not computed ([put_prop]). *)

From stdpp Require Import gmap strings list fin_maps pretty relations.

#[local] Set Warnings "-register-all".
#[local] Open Scope Z_scope.

(** ** Values *)

Inductive value : Type :=
| VUndefined
| VNull
| VBool (b : bool)
| VNum (n : Z)
| VStr (s : string)
| VArr (l : list value)
| VObj (o : gmap string value).

Abbreviation obj := (gmap string value).

(** What a piece of JavaScript throws. *)
Inductive exn : Type :=
| TypeError
| AssertionError (message : string).

(** A call either returns or throws. *)
Inductive completion (A : Type) : Type :=
| Return (a : A)
| Throw (e : exn).
Arguments Return {A} a.
Arguments Throw {A} e.

#[global] Instance completion_ret : MRet completion := λ A a, Return a.
#[global] Instance completion_bind : MBind completion := λ A B f m,
  match m with
  | Return a => f a
  | Throw e => Throw e
  end.

(** ToBoolean: the test of [if (v)], [!v], [a || b] and [a && b]. *)
Definition truthy (v : value) : bool :=
  match v with
  | VUndefined | VNull => false
  | VBool b => b
  | VNum n => negb (n =? 0)
  | VStr s => negb (String.eqb s "")
  | VArr _ | VObj _ => true
  end.

(** [a || b] and [a && b], both operands already evaluated. *)
Definition js_or (a b : value) : value := if truthy a then a else b.
Definition js_and (a b : value) : value := if truthy a then b else a.

Definition is_nullish (v : value) : bool :=
  match v with
  | VUndefined | VNull => true
  | _ => false
  end.

Definition is_mapping (v : value) : bool :=
  match v with
  | VObj _ => true
  | _ => false
  end.

(** The position named by an array index key, among the first [n]. *)
Definition index_of_key (k : string) (n : nat) : option nat :=
  List.find (λ i, String.eqb (pretty i) k) (seq 0 n).

Definition chars (s : string) : list value :=
  (λ c, VStr (String c EmptyString)) <$> String.list_ascii_of_string s.

(** [v[k]] for a value that is neither [null] nor [undefined], under a
    name [k] the value's prototype has no member of: the own property,
    [undefined] when there is none.  These are the reads under the names
    the code fixes ([records], [offset], [id], [fields], [length], the
    configuration keys); a read under a name the caller chooses is
    [own_prop].  A string is indexed by its characters. *)
Definition read_prop (v : value) (k : string) : value :=
  match v with
  | VUndefined | VNull | VBool _ | VNum _ => VUndefined
  | VStr s =>
      if String.eqb k "length" then VNum (Z.of_nat (String.length s))
      else default VUndefined (i ← index_of_key k (String.length s); chars s !! i)
  | VArr l =>
      if String.eqb k "length" then VNum (Z.of_nat (length l))
      else default VUndefined (i ← index_of_key k (length l); l !! i)
  | VObj o => default VUndefined (o !! k)
  end.

(** [v[k]]: reading a property of [null] or [undefined] throws. *)
Definition get_prop (v : value) (k : string) : completion value :=
  if is_nullish v then Throw TypeError else Return (read_prop v k).

(** The own property [k] of a value, if it has one. *)
Definition own_prop (v : value) (k : string) : option value :=
  match v with
  | VUndefined | VNull | VBool _ | VNum _ => None
  | VStr s =>
      if String.eqb k "length" then Some (VNum (Z.of_nat (String.length s)))
      else i ← index_of_key k (String.length s); chars s !! i
  | VArr l =>
      if String.eqb k "length" then Some (VNum (Z.of_nat (length l)))
      else i ← index_of_key k (length l); l !! i
  | VObj o => o !! k
  end.

(** [v[k] = x] under ['use strict'].

    - A write to [null] or [undefined] throws.
    - A write to a boolean, a number or a string throws, unless [k] is
      [__proto__]: that write goes to the setter [Object.prototype] has
      for [__proto__], which does nothing on a primitive.
    - A write to an object that has the property overwrites it.  A write
      to one that has not adds it, for every [k] but [__proto__]: the
      members of the prototypes are writable data properties, which an
      assignment shadows.
    - [None], an object without a property [__proto__] of its own, written
      under that name: the write goes to the setter of the prototype, which
      replaces the prototype of the object or does nothing, or, where the
      prototype has been replaced before, may add the property; the value
      universe does not represent prototypes.
    - [None], an array: its index growth, [length] and extra properties
      are not represented either. *)
Definition put_prop (v : value) (k : string) (x : value)
  : option (completion value) :=
  match v with
  | VUndefined | VNull => Some (Throw TypeError)
  | VBool _ | VNum _ | VStr _ =>
      if String.eqb k "__proto__" then Some (Return v) else Some (Throw TypeError)
  | VArr _ => None
  | VObj o =>
      match o !! k with
      | Some _ => Some (Return (VObj (<[k:=x]> o)))
      | None =>
          if String.eqb k "__proto__" then None
          else Some (Return (VObj (<[k:=x]> o)))
      end
  end.

(** The own enumerable string-keyed properties of a value. *)
Definition own_props (v : value) : obj :=
  match v with
  | VObj o => o
  | VArr l => list_to_map (imap (λ i x, (pretty i, x)) l)
  | VStr s => list_to_map (imap (λ i x, (pretty i, x)) (chars s))
  | _ => ∅
  end.

(** lodash [assign(target, source)]: every own enumerable property of the
    source is written to the target, over a property of the same name. *)
Definition assign (target : obj) (source : value) : obj :=
  own_props source ∪ target.

(** ** Action Descriptors and the dispatcher's reply *)

(** [Table._urlEncodedNameOrId()], [encodeURIComponent] left symbolic. *)
Inductive table_ref : Type :=
| TableId (id : value)
| EncodedName (name : value).

(** ['/' + table + '/'] and ['/' + table + '/' + id]. *)
Inductive path : Type :=
| TablePath (t : table_ref)
| RecordPath (t : table_ref) (id : value).

Record Action : Type := mkAction {
  method : string;
  action_path : path;
  queryParams : value;
  bodyData : value;
}.

(** The arguments [(err, response, body)] the dispatcher passes to the
    callback of [runAction]. *)
Record Reply : Type := mkReply {
  err : value;
  response : value;
  body : value;
}.

(** One [runAction(method, path, queryParams, bodyData, callback)]. *)
Definition action_call (A : Type) : Type := Action * (Reply → A).

Definition runAction {A} (method : string) (p : path) (queryParams bodyData : value)
    (callback : Reply → A) : action_call A :=
  (mkAction method p queryParams bodyData, callback).

Definition request {A} (d : action_call A) : Action := d.1.
Definition answer {A} (d : action_call A) (reply : Reply) : A := d.2 reply.

(** ** Table: the state of a table object *)

Record table : Type := mkTable {
  _base : value;
  table_id : value;
  table_name : value;
}.

Definition _urlEncodedNameOrId (t : table) : table_ref :=
  if truthy (table_id t) then TableId (table_id t) else EncodedName (table_name t).

(** ** Record *)

Module AirtableRecord.

Record t : Type := mk {
  _table : table;
  id : value;
  _rawJson : value;
  fields : value;
}.

(** The arguments of [done]: [done(err)] or [done(null, that)]. *)
Definition done_args : Type := value * option t.

(** [this._rawJson && this._rawJson.fields]: the property is read only
    when [_rawJson] is truthy, so the read cannot throw. *)
Definition raw_fields (rawJson : value) : value :=
  if truthy rawJson then read_prop rawJson "fields" else rawJson.

Definition setRawJson (rawJson : value) (that : t) : t :=
  {| _table := _table that;
     id := id that;
     _rawJson := rawJson;
     fields := js_or (raw_fields rawJson) (VObj ∅) |}.

(** [new Record(table, recordId, recordJson)] *)
Definition init (tbl : table) (recordId recordJson : value) : completion t :=
  i ← (if truthy recordId then Return recordId else get_prop recordJson "id");
  Return (setRawJson recordJson
            {| _table := tbl; id := i; _rawJson := VUndefined; fields := VUndefined |}).

Definition getId (that : t) : value := id that.

(** [this.fields[columnName]]: a read of [null] or [undefined] throws.
    [Return (Some v)]: [fields] has the property itself, and the result is
    its value [v].  [Return None]: it has not, and the result is what the
    prototype of [fields] holds under that name: a member of the prototype
    ([constructor], [toString], [__proto__], ...), which is no JSON value,
    or [undefined] when the prototype has no such member. *)
Definition get (columnName : string) (that : t) : completion (option value) :=
  if is_nullish (fields that) then Throw TypeError
  else Return (own_prop (fields that) columnName).

(** [this.fields[columnName] = columnValue].  When [fields] is the object
    held by [_rawJson.fields] (see [setRawJson]), the write shows there
    too: it is one object.  [None] where [put_prop] is. *)
Definition set (columnName : string) (columnValue : value) (that : t)
  : option (completion t) :=
  c ← put_prop (fields that) columnName columnValue;
  Some (f ← c;
        Return {| _table := _table that;
                  id := id that;
                  _rawJson :=
                    match _rawJson that with
                    | VObj raw =>
                        if truthy (raw_fields (VObj raw))
                        then VObj (<["fields" := f]> raw)
                        else VObj raw
                    | raw => raw
                    end;
                  fields := f |}).

Definition record_path (that : t) : path :=
  RecordPath (_urlEncodedNameOrId (_table that)) (id that).

(** A callback of the record's methods: it acts on the record as it is
    when the reply arrives, and calls [done]. *)
Definition handler : Type := t → t * done_args.

(** The callback shared by [patchUpdate], [putUpdate] and [fetch]. *)
Definition refresh (reply : Reply) : handler := λ that,
  if truthy (err reply) then (that, (err reply, None))
  else let that := setRawJson (body reply) that in
       (that, (VNull, Some that)).

(** [opts = None]: the call [patchUpdate(cellValuesByName, done)]. *)
Definition patchUpdate (cellValuesByName : value) (opts : option value) (this : t)
  : action_call handler :=
  let opts := default (VObj ∅) opts in
  let updateBody := assign {["fields" := cellValuesByName]} opts in
  runAction "patch" (record_path this) (VObj ∅) (VObj updateBody) refresh.

Definition putUpdate (cellValuesByName : value) (opts : option value) (this : t)
  : action_call handler :=
  let opts := default (VObj ∅) opts in
  let updateBody := assign {["fields" := cellValuesByName]} opts in
  runAction "put" (record_path this) (VObj ∅) (VObj updateBody) refresh.

Definition save (this : t) : action_call handler :=
  putUpdate (fields this) None this.

Definition destroy (this : t) : action_call handler :=
  runAction "delete" (record_path this) (VObj ∅) VNull
    (λ reply that,
       if truthy (err reply) then (that, (err reply, None))
       else (that, (VNull, Some that))).

Definition fetch (this : t) : action_call handler :=
  runAction "get" (record_path this) (VObj ∅) VNull refresh.

(** The methods that go to the dispatcher. *)
Inductive operation : Type :=
| Fetch
| PatchUpdate (cellValuesByName : value) (opts : option value)
| PutUpdate (cellValuesByName : value) (opts : option value)
| Destroy
| Save.

Definition issue (op : operation) (this : t) : action_call handler :=
  match op with
  | Fetch => fetch this
  | PatchUpdate cellValuesByName opts => patchUpdate cellValuesByName opts this
  | PutUpdate cellValuesByName opts => putUpdate cellValuesByName opts this
  | Destroy => destroy this
  | Save => save this
  end.

(** The methods whose callback calls [setRawJson]. *)
Definition refreshes (op : operation) : bool :=
  match op with
  | Destroy => false
  | _ => true
  end.

(** One change of a record's state: the reply to a method called
    earlier arrives, or [set] or [setRawJson] is called. *)
Inductive step : t → t → Prop :=
| step_answer (op : operation) (earlier : t) (reply : Reply) (that : t) :
    step that (answer (issue op earlier) reply that).1
| step_set (columnName : string) (columnValue : value) (that that' : t) :
    set columnName columnValue that = Some (Return that') →
    step that that'
| step_set_array (elements elements' : list value) (that : t) :
    (* [set] on a record whose [fields] is an array: [put_prop] does not say
       what the array holds afterwards; it is still that array, in
       [_rawJson] too *)
    fields that = VArr elements →
    step that {| _table := _table that;
                 id := id that;
                 _rawJson := match _rawJson that with
                             | VObj raw => VObj (<["fields" := VArr elements']> raw)
                             | raw => raw
                             end;
                 fields := VArr elements' |}
| step_set_prototype (columnValue : value) (F : obj) (that : t) :
    (* [set("__proto__", columnValue)] on a record whose [fields] has no
       property of that name: [put_prop] does not say what follows; the
       properties of [fields] stay as they are (no step), or the property
       is added, in [_rawJson] too *)
    fields that = VObj F →
    F !! "__proto__" = None →
    step that {| _table := _table that;
                 id := id that;
                 _rawJson :=
                   match _rawJson that with
                   | VObj raw =>
                       if truthy (raw_fields (VObj raw))
                       then VObj (<["fields" := VObj (<["__proto__" := columnValue]> F)]> raw)
                       else VObj raw
                   | raw => raw
                   end;
                 fields := VObj (<["__proto__" := columnValue]> F) |}
| step_setRawJson (rawJson : value) (that : t) :
    step that (setRawJson rawJson that).

End AirtableRecord.

(** ** What a run does, in the order it does it *)

Inductive event : Type :=
| EvListRecords (limit offset opts : value)
    (* that._listRecords(limit, offset, opts, ...) *)
| EvRunAction (a : Action)
    (* this._base.runAction(...) *)
| EvForEach (page : list AirtableRecord.t)
    (* forEach(page, callback) *)
| EvCallback (record : AirtableRecord.t) (index : nat)
    (* callback(record, index, page) *)
| EvDone (args : list value)
    (* done(...) *)
| EvWarn (message : string)
    (* console.warn(message) *)
| EvThrow (e : exn).

Definition is_callback (e : event) : bool :=
  match e with EvCallback _ _ => true | _ => false end.

(** The cursors handed to [_listRecords], in order. *)
Definition cursors (trace : list event) : list value :=
  omap (λ e, match e with EvListRecords _ offset _ => Some offset | _ => None end) trace.

(** The Action Descriptors handed to the dispatcher, in order. *)
Definition requests (trace : list event) : list Action :=
  omap (λ e, match e with EvRunAction a => Some a | _ => None end) trace.

(** The pages handed to [forEach], in order. *)
Definition processed (trace : list event) : list (list AirtableRecord.t) :=
  omap (λ e, match e with EvForEach page => Some page | _ => None end) trace.

(** The argument lists of the calls of [done], in order. *)
Definition completions (trace : list event) : list (list value) :=
  omap (λ e, match e with EvDone args => Some args | _ => None end) trace.

(** ** lodash collections *)

(** lodash [isLength]. *)
Definition is_length (v : value) : option nat :=
  match v with
  | VNum n => if (0 <=? n) && (n <=? 9007199254740991) then Some (Z.to_nat n) else None
  | _ => None
  end.

(** The elements lodash [map] and [forEach] visit in a collection: those of
    an array, the characters of a string, the indexed properties of an
    array-like object, the property values of any other object (in the
    order of the map: the model of objects keeps no property order). *)
Definition elements_of (collection : value) : list value :=
  match collection with
  | VArr l => l
  | VStr s => chars s
  | VObj o =>
      match is_length (default VUndefined (o !! "length")) with
      | Some n => (λ i, default VUndefined (o !! pretty i)) <$> seq 0 n
      | None => (map_to_list o).*2
      end
  | _ => []
  end.

(** A newline. *)
Definition nl : string := String (Ascii.ascii_of_nat 10) EmptyString.

(** ** Query parameters *)

Record validation : Type := mkValidation {
  validParams : obj;
  ignoredKeys : list string;
  errors : list string;
}.

Record Query : Type := mkQuery {
  query_table : table;
  query_params : obj;
}.

Section ValidateParams.

(** The recognized listing parameters, each with its well-formedness
    check, and the wording of the two errors: the spec names [limit],
    [offset] and service-defined filter, sort and field-selection
    parameters, and fixes no wording. *)
Variable validators : string → option (value → bool).
Variable unrecognized malformed : string → string.

Definition validate_entry (entry : string * value) : option string :=
  match validators entry.1 with
  | None => Some (unrecognized entry.1)
  | Some check => if check entry.2 then None else Some (malformed entry.1)
  end.

(** Modelled from the spec: [Query.validateParams], of [lib/query.js],
    which is not among the sources.  Parameter validation rejects unknown and malformed
    parameters: an unrecognized parameter is rejected with an error that
    names it, a recognized one is kept when it is well formed and rejected
    otherwise.  The spec has no parameter that is set aside without an
    error. *)
Definition validateParams (params : obj) : validation :=
  {| validParams :=
       filter (λ entry, validate_entry entry = None) params;
     ignoredKeys := [];
     errors := omap validate_entry (map_to_list params) |}.

End ValidateParams.

(** ** Table *)

Module Table.

(** [new Table(base, tableId, tableName)] *)
Definition init (base tableId tableName : value) : completion table :=
  if truthy (js_or tableId tableName)
  then Return {| _base := base; table_id := tableId; table_name := tableName |}
  else Throw (AssertionError "Table name or table ID is required").

Definition _findRecordById (recordId : value) (that : table)
  : completion (AirtableRecord.t * action_call AirtableRecord.handler) :=
  record ← AirtableRecord.init that recordId VUndefined;
  Return (record, AirtableRecord.fetch record).

Section Select.

Variable validate : obj → validation.

(** [_selectRecords(...args)]: what it logs, and the query it returns
    or the assertion it fails. *)
Definition _selectRecords (args : list value) (that : table)
  : list event * completion Query :=
  let params := default VUndefined (head args) in
  let params := match params with VUndefined => VObj ∅ | _ => params end in
  let warned :=
    if decide (1 < length args)%nat
    then [EvWarn ("Airtable: `select` takes only one parameter, but it was given "
                    +:+ pretty (length args) +:+ " parameters. "
                    +:+ "Use `eachPage` or `firstPage` to fetch records.")]
    else [] in
  match params with
  | VObj params =>
      let validationResults := validate params in
      if decide (errors validationResults ≠ [])
      then
        let formattedErrors := (λ error, "  * " +:+ error) <$> errors validationResults in
        (warned, Throw (AssertionError ("Airtable: invalid parameters for `select`:"
                                          +:+ nl +:+ String.concat nl formattedErrors)))
      else
        (warned ++
           (if decide (ignoredKeys validationResults ≠ [])
            then [EvWarn ("Airtable: the following parameters to `select` will be ignored: "
                            +:+ String.concat ", " (ignoredKeys validationResults))]
            else []),
         Return (mkQuery that (validParams validationResults)))
  | _ =>
      (warned,
       Throw (AssertionError
                "Airtable: the parameter for `select` should be a plain object or undefined."))
  end.

End Select.

(** The arguments of [done] in [_createRecord]. *)
Definition created : Type := value * option AirtableRecord.t.

(** [optionalParameters = None]: the call [_createRecord(recordData, done)]. *)
Definition _createRecord (recordData : value) (optionalParameters : option value)
    (that : table) : action_call (completion created) :=
  let optionalParameters := default (VObj ∅) optionalParameters in
  let requestData := assign {["fields" := recordData]} optionalParameters in
  runAction "post" (TablePath (_urlEncodedNameOrId that)) (VObj ∅) (VObj requestData)
    (λ reply,
       if truthy (err reply) then Return (err reply, None)
       else i ← get_prop (body reply) "id";
            record ← AirtableRecord.init that i (body reply);
            Return (VNull, Some record)).

Definition _updateRecord (recordId recordData : value) (opts : option value)
    (that : table)
  : completion (AirtableRecord.t * action_call AirtableRecord.handler) :=
  record ← AirtableRecord.init that recordId VUndefined;
  Return (record, AirtableRecord.patchUpdate recordData opts record).

Definition _replaceRecord (recordId recordData : value) (opts : option value)
    (that : table)
  : completion (AirtableRecord.t * action_call AirtableRecord.handler) :=
  record ← AirtableRecord.init that recordId VUndefined;
  Return (record, AirtableRecord.putUpdate recordData opts record).

Definition _destroyRecord (recordId : value) (that : table)
  : completion (AirtableRecord.t * action_call AirtableRecord.handler) :=
  record ← AirtableRecord.init that recordId VUndefined;
  Return (record, AirtableRecord.destroy record).

(** The arguments [(err, records, offset)] of [done] in [_listRecords]:
    [done(err)] leaves the last two undefined. *)
Definition listed : Type := value * option (list AirtableRecord.t) * value.

(** [opts = None]: the call [_listRecords(limit, offset, done)]. *)
Definition _listRecords (limit offset : value) (opts : option value) (that : table)
  : action_call (completion listed) :=
  let opts := default (VObj ∅) opts in
  let listRecordsParameters := assign (<["limit" := limit]> {["offset" := offset]}) opts in
  runAction "get" (TablePath (_urlEncodedNameOrId that)) (VObj listRecordsParameters) VNull
    (λ reply,
       if truthy (err reply) then Return (err reply, None, VUndefined)
       else rs ← get_prop (body reply) "records";
            records ← mapM (λ recordJson, AirtableRecord.init that VNull recordJson)
                           (elements_of rs);
            Return (VNull, Some records, read_prop (body reply) "offset")).

(** The two events with which [nextPage] starts. *)
Definition issued (that : table) (limit opts offset : value) : list event :=
  [EvListRecords limit offset opts;
   EvRunAction (request (_listRecords limit offset (Some opts) that))].

Section ForEachRecord.

(** The caller's state and per-record callback; the dispatcher's
    replies, in the order they arrive.  The callback returns. *)
Context {U : Type}.
Variable callback : AirtableRecord.t → nat → list AirtableRecord.t → U → U * value.

(** lodash [forEach(page, callback)] on an array: it stops early when
    the callback returns [false]. *)
Fixpoint forEach_from (index : nat) (page rest : list AirtableRecord.t) (u : U)
  : list event * U :=
  match rest with
  | [] => ([], u)
  | record :: rest =>
      let '(u, result) := callback record index page u in
      match result with
      | VBool false => ([EvCallback record index], u)
      | _ => let '(visits, u) := forEach_from (S index) page rest u in
             (EvCallback record index :: visits, u)
      end
  end.

Definition forEach (page : list AirtableRecord.t) (u : U) : list event * U :=
  forEach_from 0 page page u.

(** [nextPage()], against the replies still to come.  With no reply left
    the run is waiting for the dispatcher.  [forEach] visits nothing in a
    [page] that is undefined. *)
Fixpoint nextPage (that : table) (limit opts offset : value)
    (replies : list Reply) (u : U) : list event * U :=
  let call := _listRecords limit offset (Some opts) that in
  let issued := issued that limit opts offset in
  match replies with
  | [] => (issued, u)
  | reply :: replies =>
      match answer call reply with
      | Throw e => (issued ++ [EvThrow e], u)
      | Return (err, page, newOffset) =>
          if truthy err then (issued ++ [EvDone [err]], u)
          else
            let page := default [] page in
            let '(visits, u) := forEach page u in
            if truthy newOffset
            then let '(later, u) := nextPage that limit opts newOffset replies u in
                 (issued ++ EvForEach page :: visits ++ later, u)
            else (issued ++ EvForEach page :: visits ++ [EvDone []], u)
      end
  end.

(** [opts = None]: the call [_forEachRecord(callback, done)].
    [recordsPerPageForIteration] is [Table.__recordsPerPageForIteration]. *)
Definition _forEachRecord (recordsPerPageForIteration : value) (opts : option value)
    (that : table) (replies : list Reply) (u : U) : list event * U :=
  let opts := default (VObj ∅) opts in
  let limit := js_or recordsPerPageForIteration (VNum 100) in
  nextPage that limit opts VNull replies u.

End ForEachRecord.

End Table.

(** ** Pages of a listing *)

(** The content of a successful reply to [_listRecords]: the record bodies
    in the order of the response, and the [offset] member ([undefined] when
    the response has none). *)
Record page : Type := mkPage {
  page_records : list value;
  page_offset : value;
}.

(** The record [new Record(that, null, recordJson)] builds from a body. *)
Definition record_of (that : table) (recordJson : value) : AirtableRecord.t :=
  AirtableRecord.setRawJson recordJson
    {| AirtableRecord._table := that;
       AirtableRecord.id := read_prop recordJson "id";
       AirtableRecord._rawJson := VUndefined;
       AirtableRecord.fields := VUndefined |}.

Definition page_of (that : table) (p : page) : list AirtableRecord.t :=
  record_of that <$> page_records p.

(** [reply] is a successful reply that carries the page [p]: its body has
    the record bodies of [p], none of them [null] or [undefined], as the
    elements of [records], and the offset of [p] as [offset]. *)
Definition delivers (reply : Reply) (p : page) : Prop :=
  truthy (err reply) = false ∧
  is_nullish (body reply) = false ∧
  elements_of (read_prop (body reply) "records") = page_records p ∧
  Forall (λ recordJson, is_nullish recordJson = false) (page_records p) ∧
  read_prop (body reply) "offset" = page_offset p.

(** The reply [(null, response, {records, offset})], the [offset] member
    being absent when [offset = None]. *)
Definition page_reply (records : list value) (offset : option value) : Reply :=
  {| err := VNull;
     response := VObj ∅;
     body := VObj (match offset with
                   | Some o => <["records" := VArr records]> {["offset" := o]}
                   | None => {["records" := VArr records]}
                   end) |}.

(** A page after which the iteration goes on. *)
Definition continuing (p : page) : Prop := truthy (page_offset p) = true.

(** The last offset received, [cursor] when no page was. *)
Definition last_offset (cursor : value) (ps : list page) : value :=
  default cursor (last (page_offset <$> ps)).

(** The events of fetching and processing the pages [ps] one after the
    other from [cursor], [visitss] being the callback invocations of each
    page. *)
Fixpoint blocks (that : table) (limit opts cursor : value)
    (ps : list page) (visitss : list (list event)) : list event :=
  match ps, visitss with
  | p :: ps, visits :: visitss =>
      Table.issued that limit opts cursor
        ++ EvForEach (page_of that p)
        :: visits ++ blocks that limit opts (page_offset p) ps visitss
  | _, _ => []
  end.

(** [visits] are the callback invocations [forEach] makes on the page [p],
    from some state of the caller. *)
Definition visits_of {U : Type}
    (callback : AirtableRecord.t → nat → list AirtableRecord.t → U → U * value)
    (that : table) (p : page) (visits : list event) : Prop :=
  ∃ u, visits = (Table.forEach callback (page_of that p) u).1.

(** ** Airtable: the client configuration *)

Module Airtable.

(** The settings held by the class itself, written by [configure]. *)
Record statics : Type := mkStatics {
  apiKey : value;
  endpointUrl : value;
  apiVersion : value;
  allowUnauthorizedSsl : value;
  noRetryIfRateLimited : value;
}.

Record t : Type := mk {
  _apiKey : value;
  _endpointUrl : value;
  _apiVersion : value;
  _apiVersionMajor : value;
  _allowUnauthorizedSsl : value;
  _noRetryIfRateLimited : value;
  requestTimeout : value;
}.

(** [Airtable.default_config()], [env] being [process.env]. *)
Definition default_config (env : obj) : obj :=
  list_to_map
    [("endpointUrl", js_or (default VUndefined (env !! "AIRTABLE_ENDPOINT_URL"))
                           (VStr "https://api.airtable.com"));
     ("apiVersion", VStr "0.1.0");
     ("apiKey", default VUndefined (env !! "AIRTABLE_API_KEY"));
     ("allowUnauthorizedSsl", VBool false);
     ("noRetryIfRateLimited", VBool false);
     ("requestTimeout", VNum (300 * 1000))].

(** [s.split('.')[0]] *)
Fixpoint before_dot (s : string) : string :=
  match s with
  | EmptyString => EmptyString
  | String c s =>
      if Ascii.eqb c (Ascii.ascii_of_nat 46) (* '.' *) then EmptyString
      else String c (before_dot s)
  end.

(** [new Airtable(opts)] *)
Definition init (cls : statics) (env : obj) (opts : value) : completion t :=
  let opts := js_or opts (VObj ∅) in
  let default_config := VObj (default_config env) in
  let setting (own : value) (name : string) :=
    js_or (js_or (read_prop opts name) own) (read_prop default_config name) in
  let version := setting (apiVersion cls) "apiVersion" in
  major ← match version with
          | VStr s => Return (VStr (before_dot s))
          | _ => Throw TypeError
          end;
  let that :=
    {| _apiKey := setting (apiKey cls) "apiKey";
       _endpointUrl := setting (endpointUrl cls) "endpointUrl";
       _apiVersion := version;
       _apiVersionMajor := major;
       _allowUnauthorizedSsl := setting (allowUnauthorizedSsl cls) "allowUnauthorizedSsl";
       _noRetryIfRateLimited := setting (noRetryIfRateLimited cls) "noRetryIfRateLimited";
       requestTimeout :=
         js_or (read_prop opts "requestTimeout") (read_prop default_config "requestTimeout") |} in
  if truthy (_apiKey that) then Return that
  else Throw (AssertionError "API key is required to connect to Airtable").

(** [Airtable.configure(opts)] *)
Definition configure (opts : value) : completion statics :=
  k ← get_prop opts "apiKey";
  Return {| apiKey := k;
            endpointUrl := read_prop opts "endpointUrl";
            apiVersion := read_prop opts "apiVersion";
            allowUnauthorizedSsl := read_prop opts "allowUnauthorizedSsl";
            noRetryIfRateLimited := read_prop opts "noRetryIfRateLimited" |}.

End Airtable.

(** ** The Action Dispatcher *)

Module Dispatcher.

(** What the transport hands back for one request: a status with the body
    parsed as JSON ([None] when it does not parse), or no response. *)
Inductive transport : Type :=
| HttpResponse (status : Z) (payload : option value)
| NoResponse (reason : value).

(** The structured errors, with the remote status and payload when there
    is one. *)
Inductive failure : Type :=
| RateLimitError (status : Z) (payload : option value)
| RemoteError (status : Z) (payload : option value)
| TransportError (reason : option value).

(** Modelled from the spec: managed retry is on unless the caller has
    disabled it, which the client records as a truthy
    [_noRetryIfRateLimited]. *)
Definition managed_retry (airtable : Airtable.t) : bool :=
  negb (truthy (Airtable._noRetryIfRateLimited airtable)).

Inductive verdict : Type :=
| Succeeded (parsed : value)
| Retryable (status : Z) (payload : option value)
| Failed (f : failure).

(** Modelled from the spec: the response classification of the Action
    Dispatcher, whose [runAction] is not among the sources.  A 2xx status with a parseable JSON body is a success; status 429 is
    retryable unless the caller has disabled managed retry, and is then a
    rate-limit error; any other status, a body that is not JSON and a
    transport-level failure are not retryable. *)
Definition classify (retry : bool) (r : transport) : verdict :=
  match r with
  | NoResponse reason => Failed (TransportError (Some reason))
  | HttpResponse status payload =>
      if status =? 429 then
        if retry then Retryable status payload
        else Failed (RateLimitError status payload)
      else if (200 <=? status) && (status <? 300) then
        match payload with
        | Some parsed => Succeeded parsed
        | None => Failed (TransportError None)
        end
      else Failed (RemoteError status payload)
  end.

Section Policy.

(** The wait before retry number [n], which the spec leaves to the
    implementation, the caller's request timeout, both in milliseconds, and
    whether retry is managed. *)
Variable backoff : nat → Z.
Variable requestTimeout : Z.
Variable retry : bool.

(** Modelled from the spec: [dispatch(method, path, query, body)] of the
    Action Dispatcher, whose [runAction] is not among the sources, against
    the transport's responses in the order they arrive.  A retryable response is followed, after the wait, by the
    identical Action Descriptor, as long as the total wait stays within
    the request timeout; past it the rate-limit error is surfaced.  The
    result is the descriptors sent and what the caller receives ([None]
    while the transport has not answered). *)
Fixpoint dispatch_from (attempt : nat) (waited : Z) (a : Action) (wire : list transport)
  : list Action * option (failure + value) :=
  match wire with
  | [] => ([a], None)
  | r :: wire =>
      match classify retry r with
      | Succeeded parsed => ([a], Some (inr parsed))
      | Failed f => ([a], Some (inl f))
      | Retryable status payload =>
          if decide (waited + backoff attempt ≤ requestTimeout)
          then let '(sent, result) :=
                 dispatch_from (S attempt) (waited + backoff attempt) a wire in
               (a :: sent, result)
          else ([a], Some (inl (RateLimitError status payload)))
      end
  end.

Definition dispatch (a : Action) (wire : list transport)
  : list Action * option (failure + value) :=
  dispatch_from 0 0 a wire.

End Policy.

End Dispatcher.

(** ** Sample data *)

Module Sample.

Definition tasks : table :=
  {| _base := VStr "appBase"; table_id := VUndefined; table_name := VStr "Tasks" |}.

Definition a1 : obj := {["a" := VNum 1]}.
Definition b2 : obj := {["b" := VNum 2]}.
Definition a1b2 : obj := <["a" := VNum 1]> {["b" := VNum 2]}.

(** A record whose snapshot is [{a: 1}]. *)
Definition rec1 : AirtableRecord.t :=
  {| AirtableRecord._table := tasks;
     AirtableRecord.id := VStr "rec1";
     AirtableRecord._rawJson := VObj (<["id" := VStr "rec1"]> {["fields" := VObj a1]});
     AirtableRecord.fields := VObj a1 |}.

(** The server answers [{id, fields: {a: 1, b: 2}}]. *)
Definition body_a1b2 : obj := <["id" := VStr "rec1"]> {["fields" := VObj a1b2]}.
Definition reply_a1b2 : Reply :=
  {| err := VNull; response := VObj ∅; body := VObj body_a1b2 |}.

(** The server answers with another [id]. *)
Definition reply_rec2 : Reply :=
  {| err := VNull; response := VObj ∅; body := VObj {["id" := VStr "rec2"]} |}.

(** The dispatcher reports an error. *)
Definition not_found : value := VObj {["statusCode" := VNum 404]}.
Definition reply_not_found : Reply :=
  {| err := not_found; response := VUndefined; body := VUndefined |}.

(** A body whose [fields] member is a string. *)
Definition body_odd : obj := {["fields" := VStr "x"]}.

(** Three record bodies, as two pages. *)
Definition row (id : string) (fields : obj) : value :=
  VObj (<["id" := VStr id]> {["fields" := VObj fields]}).
Definition page1 : page :=
  {| page_records := [row "rec1" a1; row "rec2" b2]; page_offset := VStr "itr1/rec2" |}.
Definition page2 : page :=
  {| page_records := [row "rec3" a1b2]; page_offset := VUndefined |}.
Definition reply1 : Reply := page_reply (page_records page1) (Some (page_offset page1)).
Definition reply2 : Reply := page_reply (page_records page2) None.

(** The first page again, its offset the empty string. *)
Definition reply1_empty_offset : Reply := page_reply (page_records page1) (Some (VStr "")).

(** An options bag that carries a [fields] entry of its own. *)
Definition z9 : obj := {["z" := VNum 9]}.
Definition bag : obj := <["typecast" := VBool true]> {["fields" := VObj z9]}.

(** Listing parameters: [limit], a number, and [offset] are recognized. *)
Definition validators (name : string) : option (value → bool) :=
  if String.eqb name "limit" then Some (λ v, match v with VNum _ => true | _ => false end)
  else if String.eqb name "offset" then Some (λ _, true)
  else None.
Definition unrecognized (name : string) : string := "unrecognized parameter " +:+ name.
Definition malformed (name : string) : string := "malformed parameter " +:+ name.
Definition foo1 : obj := {["foo" := VNum 1]}.

(** Two clients: one as configured by default, one told not to retry. *)
Definition no_statics : Airtable.statics :=
  Airtable.mkStatics VUndefined VUndefined VUndefined VUndefined VUndefined.
Definition key_only : value := VObj {["apiKey" := VStr "key"]}.
Definition key_no_retry : value :=
  VObj (<["apiKey" := VStr "key"]> {["noRetryIfRateLimited" := VBool true]}).
Definition client (noRetry : value) : Airtable.t :=
  {| Airtable._apiKey := VStr "key";
     Airtable._endpointUrl := VStr "https://api.airtable.com";
     Airtable._apiVersion := VStr "0.1.0";
     Airtable._apiVersionMajor := VStr "0";
     Airtable._allowUnauthorizedSsl := VBool false;
     Airtable._noRetryIfRateLimited := noRetry;
     Airtable.requestTimeout := VNum 300000 |}.

(** A backoff that doubles from 100 ms. *)
Definition doubling (attempt : nat) : Z := 100 * 2 ^ Z.of_nat attempt.

Definition get_page : Action :=
  request (Table._listRecords (VNum 100) VNull None tasks).
Definition rate_limited : option value :=
  Some (VObj {["error" := VStr "RATE_LIMIT_REACHED"]}).

(** A caller that counts the records it is shown. *)
Definition count (record : AirtableRecord.t) (index : nat)
    (page : list AirtableRecord.t) (seen : nat) : nat * value :=
  (S seen, VUndefined).

End Sample.

(** ** Further vocabulary and sample data *)

(** The records shown to the callback, each with its index, in order. *)
Definition visited (trace : list event) : list (AirtableRecord.t * nat) :=
  omap (λ e, match e with EvCallback record index => Some (record, index) | _ => None end)
    trace.

(** The exceptions thrown, in order. *)
Definition thrown (trace : list event) : list exn :=
  omap (λ e, match e with EvThrow e => Some e | _ => None end) trace.

(** The callback invocations on the first [n] records of a page. *)
Definition shown (n : nat) (page : list AirtableRecord.t) : list event :=
  imap (λ index record, EvCallback record index) (take n page).

(** No character of [s] is a dot. *)
Fixpoint dot_free (s : string) : bool :=
  match s with
  | EmptyString => true
  | String c s => negb (Ascii.eqb c (Ascii.ascii_of_nat 46)) && dot_free s
  end.

(** A dot. *)
Definition dot : string := String (Ascii.ascii_of_nat 46) EmptyString.

(** The setting [name] as [new Airtable(opts)] resolves it: from [opts],
    else from the class, else from the defaults. *)
Definition resolved (own : value) (name : string) (env : obj) (opts : value) : value :=
  js_or (js_or (read_prop (js_or opts (VObj ∅)) name) own)
        (read_prop (VObj (Airtable.default_config env)) name).

Module More.

(** A record created from [{name: "a"}] and the server's answer to it. *)
Definition name_a : obj := {["name" := VStr "a"]}.
Definition body_created : obj := <["id" := VStr "rec1"]> {["fields" := VObj name_a]}.
Definition reply_created : Reply :=
  {| err := VNull; response := VObj ∅; body := VObj body_created |}.

(** A successful reply without a body, and a page with a [null] entry. *)
Definition reply_empty : Reply := {| err := VNull; response := VObj ∅; body := VUndefined |}.
Definition reply_hole : Reply := page_reply [Sample.row "rec1" Sample.a1; VNull] None.

(** A page reply without a [records] member. *)
Definition reply_no_records : Reply :=
  {| err := VNull; response := VObj ∅; body := VObj {["offset" := VStr "itr2"]} |}.

(** A caller that stops each page after its first record. *)
Definition first_only (record : AirtableRecord.t) (index : nat)
    (page : list AirtableRecord.t) (seen : nat) : nat * value :=
  (S seen, VBool false).

(** A validation that only sets the parameter [foo] aside. *)
Definition lenient (params : obj) : validation :=
  {| validParams := delete "foo" params;
     ignoredKeys := if decide (is_Some (params !! "foo")) then ["foo"] else [];
     errors := [] |}.

(** Listing options with an [offset] of their own. *)
Definition offset_itr0 : obj := {["offset" := VStr "itr0"]}.

(** Class-wide settings that turn managed retry off. *)
Definition statics_no_retry : Airtable.statics :=
  Airtable.mkStatics VUndefined VUndefined VUndefined VUndefined (VBool true).
Definition key_retry_false : value :=
  VObj (<["apiKey" := VStr "key"]> {["noRetryIfRateLimited" := VBool false]}).

End More.

(** * The JavaScript operations on sample values *)

Section OnSampleValues.

Example truthy_values :
  truthy <$> [VUndefined; VNull; VBool false; VNum 0; VStr ""; VStr "0"; VArr []; VObj ∅]
    = [false; false; false; false; false; true; true; true].
Proof. reflexivity. Qed.

Example read_prop_values :
  read_prop (VStr "abc") "1" = VStr "b" ∧
  read_prop (VStr "abc") "length" = VNum 3 ∧
  read_prop (VArr [VNum 7; VNum 8]) "1" = VNum 8 ∧
  read_prop (VArr [VNum 7; VNum 8]) "01" = VUndefined ∧
  read_prop (VObj Sample.a1) "a" = VNum 1 ∧
  read_prop (VObj Sample.a1) "b" = VUndefined ∧
  get_prop VNull "a" = Throw TypeError.
Proof. repeat split; reflexivity. Qed.

Example assign_values :
  assign Sample.a1 (VObj Sample.b2) = Sample.a1b2 ∧
  assign Sample.a1 (VObj {["a" := VNum 5]}) = {["a" := VNum 5]} ∧
  assign Sample.a1 VUndefined = Sample.a1 ∧
  assign ∅ (VStr "hi") = <["0" := VStr "h"]> {["1" := VStr "i"]}.
Proof. repeat split; reflexivity. Qed.

Example elements_of_values :
  elements_of (VArr [VNum 1; VNum 2]) = [VNum 1; VNum 2] ∧
  elements_of VUndefined = [] ∧
  elements_of (VStr "hi") = [VStr "h"; VStr "i"] ∧
  elements_of (VObj (<["length" := VNum 2]> {["0" := VNum 9]})) = [VNum 9; VUndefined].
Proof. repeat split; reflexivity. Qed.

(** [forEach] stops after the first record when the callback returns
    [false] there. *)
Example forEach_stops :
  Table.forEach (λ record index page (seen : nat), (S seen, VBool (bool_decide (index ≠ 0%nat))))
    (page_of Sample.tasks Sample.page1) 0%nat
    = ([EvCallback (record_of Sample.tasks (Sample.row "rec1" Sample.a1)) 0], 1%nat).
Proof. reflexivity. Qed.

Example set_shows_in_rawJson :
  AirtableRecord.set "b" (VNum 2) Sample.rec1
    = Some (Return {| AirtableRecord._table := Sample.tasks;
                      AirtableRecord.id := VStr "rec1";
                      AirtableRecord._rawJson := VObj Sample.body_a1b2;
                      AirtableRecord.fields := VObj Sample.a1b2 |}).
Proof. reflexivity. Qed.

(** Names the prototype has: [fields] holds none of them itself; a write
    under [constructor] adds the property, a write under [__proto__] goes
    to the setter of the prototype. *)
Example prototype_names :
  AirtableRecord.get "a" Sample.rec1 = Return (Some (VNum 1)) ∧
  AirtableRecord.get "constructor" Sample.rec1 = Return None ∧
  put_prop (VObj Sample.a1) "constructor" (VNum 1)
    = Some (Return (VObj (<["constructor" := VNum 1]> Sample.a1))) ∧
  put_prop (VObj Sample.a1) "__proto__" (VObj Sample.b2) = None ∧
  put_prop (VStr "x") "__proto__" (VObj Sample.b2) = Some (Return (VStr "x")) ∧
  put_prop (VStr "x") "a" (VNum 1) = Some (Throw TypeError).
Proof. repeat split; reflexivity. Qed.

End OnSampleValues.

(** * Properties of Record *)

Section RecordProperties.

Import AirtableRecord.

Implicit Types (that earlier : t) (reply : Reply) (op : operation).

Lemma answer_failure op earlier reply that :
  truthy (err reply) = true →
  answer (issue op earlier) reply that = (that, (err reply, None)).
Proof.
  intros Herr. destruct op; cbn; unfold refresh; by rewrite Herr.
Qed.

Lemma answer_success op earlier reply that :
  truthy (err reply) = false →
  answer (issue op earlier) reply that =
    let that' := if refreshes op then setRawJson (body reply) that else that in
    (that', (VNull, Some that')).
Proof.
  intros Herr. destruct op; cbn; unfold refresh; by rewrite Herr.
Qed.

Lemma setRawJson_mapping (raw F : obj) that :
  raw !! "fields" = Some (VObj F) →
  fields (setRawJson (VObj raw) that) = VObj F.
Proof.
  intros HF. cbn. unfold raw_fields. cbn. by rewrite HF.
Qed.

Lemma setRawJson_not_nullish rawJson that :
  is_nullish (fields (setRawJson rawJson that)) = false.
Proof.
  cbn. unfold js_or. destruct (truthy (raw_fields rawJson)) eqn:Ht; [|done].
  by destruct (raw_fields rawJson).
Qed.

(** What [set] returns when it returns: the record with what [put_prop]
    made of [fields], in [_rawJson] too. *)
Lemma set_inv columnName columnValue that that' :
  set columnName columnValue that = Some (Return that') →
  ∃ f, put_prop (fields that) columnName columnValue = Some (Return f) ∧
       that' = {| _table := _table that;
                  id := id that;
                  _rawJson :=
                    match _rawJson that with
                    | VObj raw =>
                        if truthy (raw_fields (VObj raw))
                        then VObj (<["fields" := f]> raw)
                        else VObj raw
                    | raw => raw
                    end;
                  fields := f |}.
Proof.
  unfold set. destruct (put_prop _ _ _) as [[f|e]|]; intros; simplify_eq/=.
  by exists f.
Qed.

Lemma put_prop_mapping (F : obj) k x f :
  put_prop (VObj F) k x = Some (Return f) → f = VObj (<[k := x]> F).
Proof.
  cbn. destruct (F !! k); [by intros [= <-]|].
  destruct (String.eqb k "__proto__"); [done|by intros [= <-]].
Qed.

Lemma put_prop_not_nullish v k x f :
  put_prop v k x = Some (Return f) → is_nullish f = false.
Proof.
  destruct v as [| | | | | |F]; cbn; try done;
    try (destruct (String.eqb k "__proto__"); [by intros [= <-]|done]).
  intros Hput. by rewrite (put_prop_mapping F k x f Hput).
Qed.

Lemma set_mapping columnName columnValue that (F : obj) :
  fields that = VObj F →
  columnName ≠ "__proto__" ∨ is_Some (F !! columnName) →
  set columnName columnValue that
    = Some (Return {| _table := _table that;
                      id := id that;
                      _rawJson :=
                        match _rawJson that with
                        | VObj raw =>
                            if truthy (raw_fields (VObj raw))
                            then VObj (<["fields" := VObj (<[columnName := columnValue]> F)]> raw)
                            else VObj raw
                        | raw => raw
                        end;
                      fields := VObj (<[columnName := columnValue]> F) |}).
Proof.
  intros HF Hname. unfold set, put_prop. rewrite HF.
  destruct (F !! columnName) eqn:Hown; [done|].
  destruct Hname as [Hname|[? ?]]; [|done].
  apply String.eqb_neq in Hname. by rewrite Hname.
Qed.

Lemma step_id that that' : step that that' → id that' = id that.
Proof.
  destruct 1 as [op earlier reply that|columnName columnValue that that' Hset|
                 elements elements' that Harray|columnValue F that HF Hown|rawJson that].
  - destruct (truthy (err reply)) eqn:Herr.
    + by rewrite answer_failure.
    + rewrite answer_success by done. cbn. by destruct (refreshes op).
  - by destruct (set_inv _ _ _ _ Hset) as (f & _ & ->).
  - done.
  - done.
  - done.
Qed.

Lemma step_fields_not_nullish that that' :
  step that that' → is_nullish (fields that) = false → is_nullish (fields that') = false.
Proof.
  destruct 1 as [op earlier reply that|columnName columnValue that that' Hset|
                 elements elements' that Harray|columnValue F that HF Hown|rawJson that];
    intros Hthat.
  - destruct (truthy (err reply)) eqn:Herr.
    + by rewrite answer_failure.
    + rewrite answer_success by done. cbn -[setRawJson].
      destruct (refreshes op); [|done]. apply setRawJson_not_nullish.
  - destruct (set_inv _ _ _ _ Hset) as (f & Hput & ->). cbn.
    by eapply put_prop_not_nullish.
  - done.
  - done.
  - apply setRawJson_not_nullish.
Qed.

Lemma init_fields_not_nullish tbl recordId recordJson that :
  init tbl recordId recordJson = Return that → is_nullish (fields that) = false.
Proof.
  unfold init. destruct (if truthy recordId then _ else _) as [i|e]; [|done].
  cbn -[setRawJson]. intros [= <-]. apply setRawJson_not_nullish.
Qed.

Lemma reach_fields_not_nullish that that' :
  rtc step that that' → is_nullish (fields that) = false → is_nullish (fields that') = false.
Proof.
  induction 1 as [|that mid that' Hstep _ IH]; [done|].
  intros Hthat. apply IH. by eapply step_fields_not_nullish.
Qed.

(** C2: a successful [fetch], [patchUpdate] or [putUpdate] whose response
    body carries a fields mapping [F] leaves the record's [fields] equal to
    [F], whatever the snapshot held before, and hands the refreshed
    record to [done]. *)
Theorem fields_replaced_wholesale op earlier reply that (raw F : obj) :
  refreshes op = true →
  truthy (err reply) = false →
  body reply = VObj raw →
  raw !! "fields" = Some (VObj F) →
  ∃ that', answer (issue op earlier) reply that = (that', (VNull, Some that')) ∧
           fields that' = VObj F ∧ _rawJson that' = VObj raw.
Proof.
  intros Hop Herr Hbody HF. rewrite answer_success by done.
  cbn -[setRawJson]. rewrite Hop. eexists; split; [done|].
  rewrite Hbody. split; [by apply setRawJson_mapping|done].
Qed.

(** C6, amended: when the dispatch of [fetch], [patchUpdate], [putUpdate],
    [destroy] or [save] fails, [done] receives that very error and the
    record keeps its [id], [fields] and [_rawJson]; a record whose state
    the reply to one of them has changed has received a successful reply.
    [setRawJson] and [set] write the record where they are called, without
    a request: the raw JSON given, and the column in a [fields] mapping. *)
Theorem dispatch_failure_leaves_record op earlier reply that :
  (truthy (err reply) = true →
   answer (issue op earlier) reply that = (that, (err reply, None))) ∧
  ((answer (issue op earlier) reply that).1 ≠ that → truthy (err reply) = false) ∧
  (∀ rawJson, _rawJson (setRawJson rawJson that) = rawJson) ∧
  (∀ columnName columnValue (F : obj),
     fields that = VObj F → columnName ≠ "__proto__" →
     ∃ that', set columnName columnValue that = Some (Return that') ∧
              fields that' = VObj (<[columnName := columnValue]> F)).
Proof.
  split; [apply answer_failure|]. split; [|split; [done|]].
  - intros Hchanged. destruct (truthy (err reply)) eqn:Herr; [|done].
    by rewrite answer_failure in Hchanged.
  - intros columnName columnValue F HF Hname. eexists.
    split; [apply (set_mapping _ _ _ F HF); by left|done].
Qed.

(** C6 as stated fails in its last clause: [set("b", 2)] on the record
    [{a: 1}] writes [fields] and the raw snapshot, and is no remote call:
    it returns the record, not a request for the dispatcher. *)
Lemma set_writes_without_dispatch :
  ∃ that', set "b" (VNum 2) Sample.rec1 = Some (Return that') ∧
           fields that' = VObj Sample.a1b2 ∧
           fields that' ≠ fields Sample.rec1 ∧
           _rawJson that' ≠ _rawJson Sample.rec1.
Proof.
  eexists. split; [reflexivity|]. split; [reflexivity|]. split.
  - intros Heq. by apply (f_equal (λ v, read_prop v "b")) in Heq.
  - intros Heq.
    by apply (f_equal (λ v, read_prop (read_prop v "fields") "b")) in Heq.
Qed.

(** C8: the [id] a record has after construction is the [id] it has after
    any sequence of replies to [fetch], [patchUpdate], [putUpdate],
    [destroy] and [save] and of calls of [set] and [setRawJson]. *)
Theorem id_immutable that that' : rtc step that that' → id that' = id that.
Proof.
  induction 1 as [|that mid that' Hstep _ IH]; [done|].
  rewrite IH. by apply step_id.
Qed.

(** C2, on the record [{a: 1}]: [patchUpdate({b: 2})] answered with
    fields [{a: 1, b: 2}]. *)
Lemma fields_replaced_wholesale_patch :
  ∃ that', answer (issue (PatchUpdate (VObj Sample.b2) None) Sample.rec1)
             Sample.reply_a1b2 Sample.rec1 = (that', (VNull, Some that')) ∧
           fields that' = VObj Sample.a1b2 ∧ _rawJson that' = VObj Sample.body_a1b2.
Proof.
  apply (fields_replaced_wholesale (PatchUpdate (VObj Sample.b2) None) Sample.rec1
           Sample.reply_a1b2 Sample.rec1 Sample.body_a1b2 Sample.a1b2);
    reflexivity.
Defined.

Lemma dispatch_failure_leaves_record_fetch :
  truthy (err Sample.reply_not_found) = true ∧
  answer (issue Fetch Sample.rec1) Sample.reply_not_found Sample.rec1
    = (Sample.rec1, (Sample.not_found, None)).
Proof.
  split; [reflexivity|].
  apply (dispatch_failure_leaves_record Fetch Sample.rec1 Sample.reply_not_found Sample.rec1).
  reflexivity.
Defined.

(** C8, on a record after [set("b", 2)] and a [fetch] answered with
    another [id]. *)
Lemma id_immutable_refreshed :
  id (answer (fetch Sample.rec1) Sample.reply_rec2
        {| _table := Sample.tasks;
           id := VStr "rec1";
           _rawJson := VObj Sample.body_a1b2;
           fields := VObj Sample.a1b2 |}).1 = VStr "rec1".
Proof.
  apply (id_immutable Sample.rec1).
  eapply rtc_l; [by apply (step_set "b" (VNum 2))|].
  apply rtc_once, (step_answer Fetch Sample.rec1).
Defined.

(** C10, where the code departs from it, and from the source's own
    documentation of [Record#fields] as an [Object]: a record constructed
    from a raw JSON whose [fields] member is a string has that string as
    its [fields], which is not a mapping. *)
Lemma fields_not_always_mapping :
  ∃ that, init Sample.tasks (VStr "rec1") (VObj Sample.body_odd) = Return that ∧
          fields that = VStr "x" ∧ is_mapping (fields that) = false.
Proof. eexists. split; [reflexivity|]. split; reflexivity. Qed.

(** On every state a constructed record reaches, [fields] is neither
    [null] nor [undefined] and [get] returns without throwing: when
    [fields] is a mapping, with the value the mapping holds for the column,
    or, when it holds none, with what its prototype has under that name.
    A [setRawJson] there sets [fields] to [{}] when the raw JSON is [null],
    [undefined] or an object without a [fields] member or with a falsy
    one, and to the [fields] member otherwise, so to a mapping when that
    member is one. *)
Theorem fields_never_absent tbl recordId recordJson constructed that :
  init tbl recordId recordJson = Return constructed →
  rtc step constructed that →
  (is_nullish (fields that) = false ∧
   ∀ columnName,
     (∃ own, get columnName that = Return own) ∧
     (∀ F : obj, fields that = VObj F → get columnName that = Return (F !! columnName))) ∧
  ∀ rawJson,
    is_nullish (fields (setRawJson rawJson that)) = false ∧
    (is_nullish rawJson = true → fields (setRawJson rawJson that) = VObj ∅) ∧
    (∀ raw : obj, rawJson = VObj raw → raw !! "fields" = None →
                  fields (setRawJson rawJson that) = VObj ∅) ∧
    (∀ (raw : obj) (f : value), rawJson = VObj raw → raw !! "fields" = Some f →
                    fields (setRawJson rawJson that) = if truthy f then f else VObj ∅) ∧
    (∀ raw F : obj, rawJson = VObj raw → raw !! "fields" = Some (VObj F) →
                    fields (setRawJson rawJson that) = VObj F).
Proof.
  intros Hinit Hreach.
  assert (is_nullish (fields that) = false) as Hfields.
  { eapply reach_fields_not_nullish; [done|]. by eapply init_fields_not_nullish. }
  split; [split; [done|]|].
  - intros columnName. unfold get. rewrite Hfields. split; [by eexists|].
    by intros F ->.
  - intros rawJson. split; [apply setRawJson_not_nullish|]. split; [|split; [|split]].
    + by destruct rawJson.
    + intros raw -> Hnone. cbn. unfold raw_fields. cbn. by rewrite Hnone.
    + intros raw f -> Hf. cbn. unfold raw_fields. cbn. by rewrite Hf.
    + intros raw F -> HF. by apply setRawJson_mapping.
Qed.

Lemma fields_never_absent_odd :
  is_nullish (fields (setRawJson (VObj Sample.body_odd) Sample.rec1)) = false ∧
  get "a" (setRawJson (VObj Sample.body_odd) Sample.rec1) = Return None.
Proof.
  destruct (fields_never_absent Sample.tasks (VStr "rec1")
              (VObj (<["id" := VStr "rec1"]> {["fields" := VObj Sample.a1]}))
              Sample.rec1 (setRawJson (VObj Sample.body_odd) Sample.rec1))
    as [[Hfields Hget] _].
  - reflexivity.
  - apply rtc_once, step_setRawJson.
  - split; [exact Hfields|]. destruct (Hget "a") as [[own Hown] _].
    rewrite Hown. revert Hown. by intros [= <-].
Defined.

End RecordProperties.

(** * Properties of Table *)

Section Traces.

Implicit Types trace : list event.

Lemma cursors_app trace trace' : cursors (trace ++ trace') = cursors trace ++ cursors trace'.
Proof. apply omap_app. Qed.

Lemma requests_app trace trace' :
  requests (trace ++ trace') = requests trace ++ requests trace'.
Proof. apply omap_app. Qed.

Lemma processed_app trace trace' :
  processed (trace ++ trace') = processed trace ++ processed trace'.
Proof. apply omap_app. Qed.

Lemma completions_app trace trace' :
  completions (trace ++ trace') = completions trace ++ completions trace'.
Proof. apply omap_app. Qed.

End Traces.

Section IterationLemmas.

Import Table.

Context {U : Type}.
Variable callback : AirtableRecord.t → nat → list AirtableRecord.t → U → U * value.
Variables (that : table) (limit opts : value).

Implicit Types (reply : Reply) (replies more : list Reply) (p : page) (ps : list page)
  (cursor : value) (u : U) (trace visits : list event).

Lemma init_record_of recordJson :
  is_nullish recordJson = false →
  AirtableRecord.init that VNull recordJson = Return (record_of that recordJson).
Proof.
  intros Hjson. unfold AirtableRecord.init, get_prop. cbn [truthy]. by rewrite Hjson.
Qed.

Lemma mapM_init_record_of (records : list value) :
  Forall (λ recordJson, is_nullish recordJson = false) records →
  mapM (λ recordJson, AirtableRecord.init that VNull recordJson) records
    = Return (record_of that <$> records).
Proof.
  induction 1 as [|recordJson records Hjson _ IH]; [done|].
  cbn [mapM]. rewrite init_record_of by done.
  cbn [mbind completion_bind]. by rewrite IH.
Qed.

Lemma listRecords_delivers cursor o reply p :
  delivers reply p →
  answer (_listRecords limit cursor o that) reply
    = Return (VNull, Some (page_of that p), page_offset p).
Proof.
  intros (Herr & Hbody & Hrs & Hrecords & Hoffset).
  unfold answer, _listRecords, runAction. cbn [snd]. rewrite Herr.
  unfold get_prop. rewrite Hbody. cbn [mbind completion_bind]. rewrite Hrs.
  rewrite mapM_init_record_of by done. cbn [mbind completion_bind].
  by rewrite Hoffset.
Qed.

Lemma listRecords_fails cursor o reply :
  truthy (err reply) = true →
  answer (_listRecords limit cursor o that) reply = Return (err reply, None, VUndefined).
Proof. intros Herr. unfold answer, _listRecords, runAction. cbn [snd]. by rewrite Herr. Qed.

Lemma nextPage_waiting cursor u :
  nextPage callback that limit opts cursor [] u = (issued that limit opts cursor, u).
Proof. done. Qed.

Lemma nextPage_fails cursor reply replies u :
  truthy (err reply) = true →
  nextPage callback that limit opts cursor (reply :: replies) u
    = (issued that limit opts cursor ++ [EvDone [err reply]], u).
Proof.
  intros Herr. cbn [nextPage]. rewrite listRecords_fails by done. by rewrite Herr.
Qed.

Lemma nextPage_delivers cursor reply replies p u :
  delivers reply p →
  nextPage callback that limit opts cursor (reply :: replies) u =
    let visited := forEach callback (page_of that p) u in
    if truthy (page_offset p)
    then let later := nextPage callback that limit opts (page_offset p) replies visited.2 in
         (issued that limit opts cursor ++ EvForEach (page_of that p) :: visited.1 ++ later.1, later.2)
    else (issued that limit opts cursor ++ EvForEach (page_of that p) :: visited.1 ++ [EvDone []], visited.2).
Proof.
  intros Hp. cbn [nextPage]. rewrite (listRecords_delivers _ _ _ _ Hp).
  cbn [truthy default]. destruct (forEach _ _ _) as [visits u'].
  destruct (truthy (page_offset p)); [|done].
  by destruct (nextPage _ _ _ _ _ _ _) as [later u''].
Qed.

Lemma last_offset_cons cursor p ps :
  last_offset cursor (p :: ps) = last_offset (page_offset p) ps.
Proof.
  unfold last_offset. rewrite fmap_cons, last_cons.
  by destruct (last (page_offset <$> ps)).
Qed.

Lemma last_offset_snoc cursor ps p : last_offset cursor (ps ++ [p]) = page_offset p.
Proof. unfold last_offset. by rewrite fmap_snoc, last_snoc. Qed.

Lemma blocks_app cursor ps ps' visitss visitss' :
  length ps = length visitss →
  blocks that limit opts cursor (ps ++ ps') (visitss ++ visitss')
    = blocks that limit opts cursor ps visitss
        ++ blocks that limit opts (last_offset cursor ps) ps' visitss'.
Proof.
  revert cursor visitss. induction ps as [|p ps IH]; intros cursor [|visits visitss] Hlen;
    simplify_eq/=; [done|].
  rewrite IH, last_offset_cons by done. by rewrite <-!app_assoc.
Qed.

(** As long as the pages received carry truthy offsets, the run is the
    blocks of these pages followed by the run from the last offset
    against the replies that remain. *)
Lemma nextPage_continues replies ps :
  Forall2 delivers replies ps →
  Forall continuing ps →
  ∀ cursor u, ∃ visitss u',
    Forall2 (visits_of callback that) ps visitss ∧
    ∀ rest,
      nextPage callback that limit opts cursor (replies ++ rest) u =
        let later := nextPage callback that limit opts (last_offset cursor ps) rest u' in
        (blocks that limit opts cursor ps visitss ++ later.1, later.2).
Proof.
  induction 1 as [|reply p replies ps Hp _ IH]; intros Hps cursor u.
  - exists [], u. split; [constructor|]. intros rest. cbn.
    by destruct (nextPage _ _ _ _ _ _ _).
  - apply Forall_cons in Hps as [Hgo Hps].
    destruct (IH Hps (page_offset p) (forEach callback (page_of that p) u).2)
      as (visitss & u' & Hvisits & Hrun).
    exists ((forEach callback (page_of that p) u).1 :: visitss), u'. split.
    + constructor; [by exists u|done].
    + intros rest. cbn [app]. rewrite (nextPage_delivers _ _ _ _ _ Hp).
      cbn zeta. rewrite Hgo, Hrun. cbn [fst snd blocks].
      rewrite last_offset_cons. f_equal. by simplify_list_eq.
Qed.

Section Projections.

Context {A : Type} (f : event → option A).
Hypothesis callbacks_hidden : ∀ record index, f (EvCallback record index) = None.

Lemma omap_forEach_from index page rest u :
  omap f (forEach_from callback index page rest u).1 = [].
Proof.
  revert index u. induction rest as [|record rest IH]; intros index u; [done|].
  cbn [forEach_from]. destruct (callback record index page u) as [u' result].
  specialize (IH (S index) u').
  destruct (forEach_from callback (S index) page rest u') as [visits u''].
  destruct result as [| |[]| | | |]; cbn; by rewrite callbacks_hidden.
Qed.

Lemma omap_visits p visits : visits_of callback that p visits → omap f visits = [].
Proof. intros [u ->]. apply omap_forEach_from. Qed.

End Projections.

(** Splits a projection of a block into its parts and drops the
    callback invocations. *)
Ltac project_block Hp :=
  cbn [blocks issued app]; unfold cursors, requests, processed, completions;
  cbn [omap list_omap];
  rewrite !omap_app, !(omap_visits _ (λ _ _, eq_refl) _ _ Hp);
  cbn [app].

Lemma cursors_blocks cursor ps visitss :
  Forall2 (visits_of callback that) ps visitss →
  cursors (blocks that limit opts cursor ps visitss) ++ [last_offset cursor ps]
    = cursor :: (page_offset <$> ps).
Proof.
  intros Hvisits. revert cursor.
  induction Hvisits as [|p visits ps visitss Hp _ IH]; intros cursor; [done|].
  project_block Hp. rewrite last_offset_cons, fmap_cons, <-IH. done.
Qed.

Lemma requests_blocks cursor ps visitss :
  Forall2 (visits_of callback that) ps visitss →
  length (requests (blocks that limit opts cursor ps visitss)) = length ps.
Proof.
  intros Hvisits. revert cursor.
  induction Hvisits as [|p visits ps visitss Hp _ IH]; intros cursor; [done|].
  project_block Hp. cbn [length]. f_equal. apply IH.
Qed.

Lemma processed_blocks cursor ps visitss :
  Forall2 (visits_of callback that) ps visitss →
  processed (blocks that limit opts cursor ps visitss) = page_of that <$> ps.
Proof.
  intros Hvisits. revert cursor.
  induction Hvisits as [|p visits ps visitss Hp _ IH]; intros cursor; [done|].
  project_block Hp. rewrite fmap_cons. f_equal. apply IH.
Qed.

Lemma completions_blocks cursor ps visitss :
  Forall2 (visits_of callback that) ps visitss →
  completions (blocks that limit opts cursor ps visitss) = [].
Proof.
  intros Hvisits. revert cursor.
  induction Hvisits as [|p visits ps visitss Hp _ IH]; intros cursor; [done|].
  project_block Hp. apply IH.
Qed.

Lemma requests_blocks_cursors cursor ps visitss :
  Forall2 (visits_of callback that) ps visitss →
  requests (blocks that limit opts cursor ps visitss)
    = (λ c, request (_listRecords limit c (Some opts) that))
        <$> cursors (blocks that limit opts cursor ps visitss).
Proof.
  intros Hvisits. revert cursor.
  induction Hvisits as [|p visits ps visitss Hp _ IH]; intros cursor; [done|].
  project_block Hp. rewrite fmap_cons. f_equal. apply IH.
Qed.

(** Unless [opts] has an [offset] of its own, the request carries the
    cursor as its [offset] parameter. *)
Lemma listRecords_offset cursor :
  own_props opts !! "offset" = None →
  read_prop (queryParams (request (_listRecords limit cursor (Some opts) that))) "offset"
    = cursor.
Proof.
  intros Hopts. cbn. unfold assign. rewrite lookup_union, Hopts.
  by rewrite (left_id_L None union), lookup_insert_ne, lookup_singleton_eq.
Qed.

(** An [offset] of [opts]' own is the [offset] parameter of the request,
    whatever the cursor. *)
Lemma listRecords_offset_own cursor x :
  own_props opts !! "offset" = Some x →
  read_prop (queryParams (request (_listRecords limit cursor (Some opts) that))) "offset"
    = x.
Proof.
  intros Hopts. cbn. unfold assign.
  by rewrite (lookup_union_Some_l _ _ _ _ Hopts).
Qed.

Lemma cursors_blocks_snoc cursor ps p visitss :
  Forall2 (visits_of callback that) (ps ++ [p]) visitss →
  cursors (blocks that limit opts cursor (ps ++ [p]) visitss) = cursor :: (page_offset <$> ps).
Proof.
  intros Hvisits. apply cursors_blocks with (cursor := cursor) in Hvisits.
  rewrite last_offset_snoc, fmap_snoc, app_comm_cons in Hvisits.
  by apply app_inj_tail in Hvisits as [? _].
Qed.

(** When the page after them carries a falsy offset, the run is the
    blocks of all the pages followed by [done()], whatever replies would
    follow. *)
Lemma nextPage_exhausts replies ps final_reply final more cursor u :
  Forall2 delivers replies ps →
  Forall continuing ps →
  delivers final_reply final →
  truthy (page_offset final) = false →
  ∃ visitss,
    Forall2 (visits_of callback that) (ps ++ [final]) visitss ∧
    (nextPage callback that limit opts cursor (replies ++ final_reply :: more) u).1
      = blocks that limit opts cursor (ps ++ [final]) visitss ++ [EvDone []].
Proof.
  intros Hps Hgo Hfinal Hstop.
  destruct (nextPage_continues _ _ Hps Hgo cursor u) as (visitss & u' & Hvisits & Hrun).
  exists (visitss ++ [(forEach callback (page_of that final) u').1]). split.
  - apply Forall2_app; [done|]. constructor; [by exists u'|constructor].
  - rewrite Hrun, (nextPage_delivers _ _ _ _ _ Hfinal). cbn zeta. rewrite Hstop.
    cbn [fst]. rewrite blocks_app by by eapply Forall2_length.
    cbn [blocks]. by simplify_list_eq.
Qed.

(** When the reply after them is a failure, the run is that of the pages
    received so far, waiting for the next, followed by [done(err)],
    whatever replies would follow. *)
Lemma nextPage_fails_after replies ps failed more cursor u :
  Forall2 delivers replies ps →
  Forall continuing ps →
  truthy (err failed) = true →
  ∃ visitss,
    Forall2 (visits_of callback that) ps visitss ∧
    (nextPage callback that limit opts cursor replies u).1
      = blocks that limit opts cursor ps visitss
          ++ issued that limit opts (last_offset cursor ps) ∧
    nextPage callback that limit opts cursor (replies ++ failed :: more) u
      = ((nextPage callback that limit opts cursor replies u).1 ++ [EvDone [err failed]],
         (nextPage callback that limit opts cursor replies u).2).
Proof.
  intros Hps Hgo Hfailed.
  destruct (nextPage_continues _ _ Hps Hgo cursor u) as (visitss & u' & Hvisits & Hrun).
  exists visitss. split; [done|].
  pose proof (Hrun []) as Hwait. rewrite app_nil_r, nextPage_waiting in Hwait.
  rewrite (Hrun (failed :: more)), Hwait, nextPage_fails by done.
  cbn [fst snd]. split; [done|]. by rewrite <-app_assoc.
Qed.

End IterationLemmas.

Section IterationProperties.

Import Table.

Context {U : Type}.
Variable callback : AirtableRecord.t → nat → list AirtableRecord.t → U → U * value.
Variable that : table.

Implicit Types (recordsPerPage : value) (o : option value) (reply : Reply)
  (replies more : list Reply) (p final : page) (ps : list page) (u : U).

(** C1, amended: over pages of which all but the last carry a truthy
    offset and the last a falsy one (absent, [null], or the empty string,
    [0] or [false]), [forEach] is invoked once for each page, in order,
    on that page's records in the order of the response; every page but
    the first is fetched with the offset of the page before it, one
    request a page; and [done()] is called once, last, without an
    error. *)
Theorem forEachRecord_pages recordsPerPage o replies ps final_reply final more u :
  Forall2 delivers replies ps →
  Forall continuing ps →
  delivers final_reply final →
  truthy (page_offset final) = false →
  let trace :=
    (_forEachRecord callback recordsPerPage o that (replies ++ final_reply :: more) u).1 in
  processed trace = page_of that <$> ps ++ [final] ∧
  cursors trace = VNull :: (page_offset <$> ps) ∧
  length (requests trace) = length (ps ++ [final]) ∧
  completions trace = [[]] ∧
  last trace = Some (EvDone []).
Proof.
  intros Hps Hgo Hfinal Hstop trace. subst trace. unfold _forEachRecord.
  destruct (nextPage_exhausts callback that (js_or recordsPerPage (VNum 100))
              (default (VObj ∅) o) _ _ _ _ more VNull u Hps Hgo Hfinal Hstop)
    as (visitss & Hvisits & ->).
  rewrite processed_app, cursors_app, requests_app, completions_app, length_app.
  rewrite (processed_blocks callback), (requests_blocks callback),
    (completions_blocks callback), (cursors_blocks_snoc callback) by done.
  cbn [processed cursors requests completions omap list_omap length].
  rewrite !app_nil_r, Nat.add_0_r.
  by rewrite last_snoc.
Qed.

(** C4: when the fetch of page [k] fails after [k - 1] pages, the run is
    the run over these pages as it stood waiting for page [k], followed by
    [done(err)]: what the callback was shown is all still there, the
    caller's state is what the callback left, [done] is called once, with
    that error, and the failed request is the last, whatever the
    dispatcher would have replied next. *)
Theorem failure_reported_once recordsPerPage o replies ps failed more u :
  Forall2 delivers replies ps →
  Forall continuing ps →
  truthy (err failed) = true →
  let waiting := _forEachRecord callback recordsPerPage o that replies u in
  let run := _forEachRecord callback recordsPerPage o that (replies ++ failed :: more) u in
  run = (waiting.1 ++ [EvDone [err failed]], waiting.2) ∧
  completions run.1 = [[err failed]] ∧
  length (requests run.1) = S (length ps) ∧
  processed run.1 = page_of that <$> ps ∧
  last run.1 = Some (EvDone [err failed]).
Proof.
  intros Hps Hgo Hfailed waiting run. subst waiting run. unfold _forEachRecord.
  destruct (nextPage_fails_after callback that (js_or recordsPerPage (VNum 100))
              (default (VObj ∅) o) _ _ _ more VNull u Hps Hgo Hfailed)
    as (visitss & Hvisits & Hwaiting & ->).
  split; [done|]. cbn [fst]. rewrite Hwaiting.
  rewrite !processed_app, !requests_app, !completions_app, !length_app.
  rewrite (processed_blocks callback), (requests_blocks callback),
    (completions_blocks callback) by done.
  cbn. rewrite last_snoc, !app_nil_r. split_and!; [done|lia|done|done].
Qed.

(** C5, amended: the run over the pages of a listing is, page after page,
    the call of [_listRecords] with the cursor, its request, [forEach] on
    the page received and the callback invocations on that page, and only
    then the same for the next page; the cursors are [null] and then the
    offset of each page but the last, each the cursor of the one fetch
    that follows it.  When [opts] has no [offset] of its own, the request
    of each fetch carries its cursor as the [offset] parameter; when it
    has one, every request carries that one instead. *)
Theorem pages_fetched_in_sequence recordsPerPage o replies ps final_reply final more u :
  Forall2 delivers replies ps →
  Forall continuing ps →
  delivers final_reply final →
  truthy (page_offset final) = false →
  let limit := js_or recordsPerPage (VNum 100) in
  let opts := default (VObj ∅) o in
  let trace :=
    (_forEachRecord callback recordsPerPage o that (replies ++ final_reply :: more) u).1 in
  (∃ visitss,
     Forall2 (visits_of callback that) (ps ++ [final]) visitss ∧
     trace = blocks that limit opts VNull (ps ++ [final]) visitss ++ [EvDone []]) ∧
  cursors trace = VNull :: (page_offset <$> ps) ∧
  requests trace = (λ cursor, request (_listRecords limit cursor (Some opts) that))
                     <$> cursors trace ∧
  (own_props opts !! "offset" = None →
   (λ a, read_prop (queryParams a) "offset") <$> requests trace = cursors trace) ∧
  (∀ x, own_props opts !! "offset" = Some x →
        Forall (λ a, read_prop (queryParams a) "offset" = x) (requests trace)).
Proof.
  intros Hps Hgo Hfinal Hstop limit opts trace. subst trace. unfold _forEachRecord.
  fold limit opts.
  destruct (nextPage_exhausts callback that limit opts _ _ _ _ more VNull u
              Hps Hgo Hfinal Hstop) as (visitss & Hvisits & ->).
  split; [by exists visitss|].
  assert (requests (blocks that limit opts VNull (ps ++ [final]) visitss ++ [EvDone []])
          = (λ cursor, request (_listRecords limit cursor (Some opts) that))
              <$> cursors (blocks that limit opts VNull (ps ++ [final]) visitss
                             ++ [EvDone []])) as Hrequests.
  { rewrite cursors_app, requests_app, fmap_app.
    by rewrite (requests_blocks_cursors callback). }
  split; [|split; [done|split]].
  - rewrite cursors_app, (cursors_blocks_snoc callback) by done. cbn. by rewrite app_nil_r.
  - intros Hopts. rewrite Hrequests, <-list_fmap_compose.
    rewrite <-(list_fmap_id (cursors _)) at 2. apply list_fmap_ext.
    intros _ cursor _. cbn [compose]. by apply listRecords_offset.
  - intros x Hopts. rewrite Hrequests. apply Forall_fmap, Forall_forall.
    intros cursor _. cbn [compose]. by apply listRecords_offset_own.
Qed.

End IterationProperties.

Section IterationExamples.

Import Table.

Lemma page_reply_delivers (records : list value) (offset : option value) :
  Forall (λ recordJson, is_nullish recordJson = false) records →
  delivers (page_reply records offset) (mkPage records (default VUndefined offset)).
Proof.
  intros Hrecords. by destruct offset.
Qed.

Lemma reply1_delivers : delivers Sample.reply1 Sample.page1.
Proof. apply (page_reply_delivers _ (Some _)). by repeat constructor. Qed.

Lemma reply2_delivers : delivers Sample.reply2 Sample.page2.
Proof. apply (page_reply_delivers _ None). by repeat constructor. Qed.

(** C1, over two pages, the second without an offset: [forEach] runs
    twice and [done()] ends the run. *)
Lemma forEachRecord_two_pages :
  let trace := (_forEachRecord Sample.count VUndefined None Sample.tasks
                  [Sample.reply1; Sample.reply2] 0%nat).1 in
  length (processed trace) = 2%nat ∧ completions trace = [[]] ∧
  last trace = Some (EvDone []).
Proof.
  destruct (forEachRecord_pages Sample.count Sample.tasks VUndefined None
              [Sample.reply1] [Sample.page1] Sample.reply2 Sample.page2 [] 0%nat)
    as (Hprocessed & _ & _ & Hdone & Hlast).
  - constructor; [apply reply1_delivers|constructor].
  - by repeat constructor.
  - apply reply2_delivers.
  - reflexivity.
  - split; [exact (f_equal length Hprocessed)|]. split; [exact Hdone|exact Hlast].
Defined.

(** C1 as stated fails: the first response carries the offset [""], which
    is neither [null] nor [undefined], and a second reply stands ready, yet
    no other page is fetched: the run makes one request, processes the
    first page and ends with [done()]. *)
Lemma empty_offset_ends_iteration :
  let trace := (_forEachRecord Sample.count VUndefined None Sample.tasks
                  [Sample.reply1_empty_offset; Sample.reply2] 0%nat).1 in
  read_prop (body Sample.reply1_empty_offset) "offset" = VStr "" ∧
  is_nullish (VStr "") = false ∧
  length (requests trace) = 1%nat ∧
  processed trace = [page_of Sample.tasks Sample.page1] ∧
  last trace = Some (EvDone []).
Proof. repeat split; reflexivity. Qed.

Lemma failure_reported_once_second_page :
  let run := _forEachRecord Sample.count VUndefined None Sample.tasks
               [Sample.reply1; Sample.reply_not_found; Sample.reply2] 0%nat in
  completions run.1 = [[Sample.not_found]] ∧
  length (requests run.1) = 2%nat ∧
  processed run.1 = [page_of Sample.tasks Sample.page1] ∧
  run.2 = 2%nat.
Proof.
  destruct (failure_reported_once Sample.count Sample.tasks VUndefined None
              [Sample.reply1] [Sample.page1] Sample.reply_not_found [Sample.reply2] 0%nat)
    as (Hrun & Hdone & Hrequests & Hprocessed & _).
  - constructor; [apply reply1_delivers|constructor].
  - by repeat constructor.
  - reflexivity.
  - split; [exact Hdone|]. split; [exact Hrequests|]. split; [exact Hprocessed|].
    exact (f_equal snd Hrun).
Defined.

Lemma pages_fetched_in_sequence_two_pages :
  let trace := (_forEachRecord Sample.count VUndefined None Sample.tasks
                  [Sample.reply1; Sample.reply2] 0%nat).1 in
  cursors trace = [VNull; VStr "itr1/rec2"] ∧
  (λ a, read_prop (queryParams a) "offset") <$> requests trace = cursors trace.
Proof.
  destruct (pages_fetched_in_sequence Sample.count Sample.tasks VUndefined None
              [Sample.reply1] [Sample.page1] Sample.reply2 Sample.page2 [] 0%nat)
    as (_ & Hcursors & _ & Hoffsets & _).
  - constructor; [apply reply1_delivers|constructor].
  - by repeat constructor.
  - apply reply2_delivers.
  - reflexivity.
  - split; [exact Hcursors|]. apply Hoffsets. reflexivity.
Defined.

(** C5 as stated fails: with an [offset] of [opts]' own, every request is
    the first again, whatever offset the responses carry.  A run over two
    pages ends with [done()] after asking twice for the same page; and
    where the server, asked the same, sends the first page once more, that
    page is processed twice and then requested a third time. *)
Lemma own_offset_fetches_page_again :
  let opts := Some (VObj More.offset_itr0) in
  let a := request (_listRecords (VNum 100) VNull opts Sample.tasks) in
  let ended := (_forEachRecord Sample.count VUndefined opts Sample.tasks
                  [Sample.reply1; Sample.reply2] 0%nat).1 in
  let again := (_forEachRecord Sample.count VUndefined opts Sample.tasks
                  [Sample.reply1; Sample.reply1] 0%nat).1 in
  read_prop (queryParams a) "offset" = VStr "itr0" ∧
  (cursors ended = [VNull; VStr "itr1/rec2"] ∧
   requests ended = [a; a] ∧
   completions ended = [[]]) ∧
  (requests again = [a; a; a] ∧
   processed again = [page_of Sample.tasks Sample.page1; page_of Sample.tasks Sample.page1]).
Proof. repeat split; reflexivity. Qed.

End IterationExamples.

Section RequestBodies.

Import AirtableRecord Table.

(** C9: the body [create], [patchUpdate] and [putUpdate] send is
    [{fields: C}] with every entry of the options bag [O] written over it
    at the top level, so it reads [O]'s entry wherever [O] has one, a
    [fields] entry of [O] included, and [C] under [fields] otherwise;
    without a bag it is [{fields: C}]. *)
Theorem options_merged_into_body (C : value) (O : obj) (that : table) (this : t) :
  let merged : obj := O ∪ {["fields" := C]} in
  (bodyData (request (_createRecord C (Some (VObj O)) that)) = VObj merged ∧
   bodyData (request (patchUpdate C (Some (VObj O)) this)) = VObj merged ∧
   bodyData (request (putUpdate C (Some (VObj O)) this)) = VObj merged) ∧
  (bodyData (request (_createRecord C None that)) = VObj {["fields" := C]} ∧
   bodyData (request (patchUpdate C None this)) = VObj {["fields" := C]} ∧
   bodyData (request (putUpdate C None this)) = VObj {["fields" := C]}) ∧
  (∀ k, merged !! k = match O !! k with
                      | Some v => Some v
                      | None => if decide (k = "fields") then Some C else None
                      end) ∧
  (∀ x, O !! "fields" = Some x → merged !! "fields" = Some x).
Proof.
  intros merged. split; [done|]. split.
  { unfold _createRecord, patchUpdate, putUpdate, assign. cbn.
    by rewrite (left_id_L ∅ (∪)). }
  split.
  - intros k. subst merged. rewrite lookup_union.
    destruct (O !! k) as [v|] eqn:HO.
    + by destruct ({["fields" := C]} !! k).
    + rewrite (left_id_L None union). case_decide as Hk.
      * subst k. apply lookup_singleton_eq.
      * by apply lookup_singleton_ne.
  - intros x HO. subst merged. by apply lookup_union_Some_l.
Qed.

Lemma options_merged_into_body_fields :
  bodyData (request (patchUpdate (VObj Sample.a1) (Some (VObj Sample.bag)) Sample.rec1))
    = VObj Sample.bag ∧
  (Sample.bag ∪ {["fields" := VObj Sample.a1]} : obj) !! "fields" = Some (VObj Sample.z9).
Proof.
  destruct (options_merged_into_body (VObj Sample.a1) Sample.bag Sample.tasks Sample.rec1)
    as ((_ & Hpatch & _) & _ & _ & Hfields).
  split; [exact Hpatch|]. apply Hfields. reflexivity.
Defined.

End RequestBodies.

Section SelectProperties.

Import Table.

Variable validators : string → option (value → bool).
Variable unrecognized malformed : string → string.

Lemma unrecognized_reported (params : obj) (k : string) (v : value) :
  params !! k = Some v →
  validators k = None →
  unrecognized k ∈ errors (validateParams validators unrecognized malformed params).
Proof.
  intros Hk Hnone. cbn. apply list_elem_of_omap. exists (k, v). split.
  - by apply elem_of_map_to_list.
  - unfold validate_entry. cbn. by rewrite Hnone.
Qed.

(** C7: [select] on a parameter object with an unrecognized parameter
    fails the assertion, its message listing the validation errors, that
    parameter's among them, and hands nothing to the dispatcher. *)
Theorem select_rejects_unrecognized (params : obj) (k : string) (v : value)
    (extra : list value) (that : table) :
  params !! k = Some v →
  validators k = None →
  let selected :=
    _selectRecords (validateParams validators unrecognized malformed)
      (VObj params :: extra) that in
  requests selected.1 = [] ∧
  ∃ errs,
    unrecognized k ∈ errs ∧
    selected.2 = Throw (AssertionError
                          ("Airtable: invalid parameters for `select`:" +:+ nl
                             +:+ String.concat nl ((λ error, "  * " +:+ error) <$> errs))).
Proof.
  intros Hk Hnone selected. subst selected.
  pose proof (unrecognized_reported params k v Hk Hnone) as Herr.
  assert (errors (validateParams validators unrecognized malformed params) ≠ []) as Hsome.
  { intros Hnil. rewrite Hnil in Herr. by apply elem_of_nil in Herr. }
  unfold _selectRecords. cbn [head default from_option id].
  rewrite (decide_True (P := errors _ ≠ [])) by done.
  cbn [fst snd]. split; [by case_decide|]. by eexists.
Qed.

End SelectProperties.

Section DispatcherProperties.

Import Dispatcher.

Variable backoff : nat → Z.
Variable requestTimeout : Z.

(** C3: with managed retry, a 429 followed by a 200 for the same Action
    Descriptor gives the caller the body of the 200 and no error, the
    descriptor having been sent twice, provided the first wait fits the
    request timeout; with [noRetryIfRateLimited] set, the first 429 is
    the caller's rate-limit error and the descriptor is sent once. *)
Theorem rate_limit_retry (airtable : Airtable.t) (a : Action)
    (payload : option value) (parsed : value) (wire : list transport) :
  (managed_retry airtable = true →
   backoff 0 ≤ requestTimeout →
   dispatch backoff requestTimeout (managed_retry airtable) a
     (HttpResponse 429 payload :: HttpResponse 200 (Some parsed) :: wire)
     = ([a; a], Some (inr parsed))) ∧
  (truthy (Airtable._noRetryIfRateLimited airtable) = true →
   dispatch backoff requestTimeout (managed_retry airtable) a
     (HttpResponse 429 payload :: wire)
     = ([a], Some (inl (RateLimitError 429 payload)))).
Proof.
  split.
  - intros -> Hfits. unfold dispatch. cbn. by rewrite decide_True.
  - intros Hoff. unfold managed_retry. by rewrite Hoff.
Qed.

End DispatcherProperties.

Section ClientExamples.

Import Dispatcher.

Lemma init_default :
  Airtable.init Sample.no_statics ∅ Sample.key_only = Return (Sample.client (VBool false)).
Proof. reflexivity. Qed.

Lemma init_no_retry :
  Airtable.init Sample.no_statics ∅ Sample.key_no_retry
    = Return (Sample.client (VBool true)).
Proof. reflexivity. Qed.

Lemma rate_limit_retry_default_client :
  dispatch Sample.doubling 300000 (managed_retry (Sample.client (VBool false)))
    Sample.get_page
    [HttpResponse 429 Sample.rate_limited; HttpResponse 200 (Some (VObj Sample.body_a1b2))]
    = ([Sample.get_page; Sample.get_page], Some (inr (VObj Sample.body_a1b2))) ∧
  dispatch Sample.doubling 300000 (managed_retry (Sample.client (VBool true)))
    Sample.get_page
    [HttpResponse 429 Sample.rate_limited; HttpResponse 200 (Some (VObj Sample.body_a1b2))]
    = ([Sample.get_page], Some (inl (RateLimitError 429 Sample.rate_limited))).
Proof.
  split.
  - apply (rate_limit_retry Sample.doubling 300000 (Sample.client (VBool false))).
    + reflexivity.
    + vm_compute. discriminate.
  - apply (rate_limit_retry Sample.doubling 300000 (Sample.client (VBool true))
             Sample.get_page Sample.rate_limited VNull).
    reflexivity.
Defined.

Lemma select_rejects_unrecognized_foo :
  let selected :=
    Table._selectRecords
      (validateParams Sample.validators Sample.unrecognized Sample.malformed)
      [VObj Sample.foo1] Sample.tasks in
  requests selected.1 = [] ∧
  ∃ errs,
    Sample.unrecognized "foo" ∈ errs ∧
    selected.2 = Throw (AssertionError
                          ("Airtable: invalid parameters for `select`:" +:+ nl
                             +:+ String.concat nl ((λ error, "  * " +:+ error) <$> errs))).
Proof.
  apply (select_rejects_unrecognized Sample.validators Sample.unrecognized Sample.malformed
           Sample.foo1 "foo" (VNum 1) [] Sample.tasks); reflexivity.
Defined.

End ClientExamples.

(** * Further properties of Record *)

Section RecordAccessors.

Import AirtableRecord.

Implicit Types (that earlier : t) (reply : Reply) (op : operation).

Lemma written_keeps_rawJson_fields (f : value) that (raw : obj) :
  match _rawJson that with
  | VObj raw0 =>
      if truthy (raw_fields (VObj raw0)) then VObj (<["fields" := f]> raw0) else VObj raw0
  | raw0 => raw0
  end = VObj raw →
  truthy (default VUndefined (raw !! "fields")) = true →
  f = default VUndefined (raw !! "fields").
Proof.
  destruct (_rawJson that) as [| | | | | |raw0]; try done.
  unfold raw_fields. cbn.
  destruct (truthy (default VUndefined (raw0 !! "fields"))) eqn:H0;
    intros Hraw Htruthy; simplify_eq.
  - by rewrite lookup_insert_eq.
  - by rewrite H0 in Htruthy.
Qed.

(** On a record whose [fields] is a mapping, [set] of a column other than
    [__proto__] succeeds, a [get] of the column just set returns the value
    set, as a property [fields] has itself, and a [get] of any other column
    returns what it returned before. *)
Theorem get_after_set columnName columnValue that (F : obj) :
  fields that = VObj F →
  columnName ≠ "__proto__" →
  ∃ that', set columnName columnValue that = Some (Return that') ∧
           get columnName that' = Return (Some columnValue) ∧
           ∀ other, other ≠ columnName → get other that' = get other that.
Proof.
  intros HF Hname. eexists. split; [apply (set_mapping _ _ _ F HF); by left|].
  unfold get. cbn. rewrite HF, lookup_insert_eq. split; [done|].
  intros other Hother. cbn. by rewrite lookup_insert_ne.
Qed.

Lemma get_after_set_rec1 :
  ∃ that', set "b" (VNum 2) Sample.rec1 = Some (Return that') ∧
           get "b" that' = Return (Some (VNum 2)) ∧
           ∀ other, other ≠ "b" → get other that' = get other Sample.rec1.
Proof. apply (get_after_set "b" (VNum 2) Sample.rec1 Sample.a1); [reflexivity|done]. Defined.

Lemma step_keeps_rawJson_fields that that' :
  step that that' →
  (∀ raw : obj, _rawJson that = VObj raw →
                truthy (default VUndefined (raw !! "fields")) = true →
                fields that = default VUndefined (raw !! "fields")) →
  ∀ raw : obj, _rawJson that' = VObj raw →
               truthy (default VUndefined (raw !! "fields")) = true →
               fields that' = default VUndefined (raw !! "fields").
Proof.
  destruct 1 as [op earlier reply that|columnName columnValue that that' Hset|
                 elements elements' that Harray|columnValue F that HF Hown|rawJson that];
    intros Hthat raw Hraw Htruthy.
  - destruct (truthy (err reply)) eqn:Herr.
    + rewrite answer_failure in Hraw |- * by done. by apply Hthat.
    + rewrite answer_success in Hraw |- * by done. cbn -[setRawJson] in Hraw |- *.
      destruct (refreshes op); [|by apply Hthat].
      cbn in Hraw |- *. rewrite Hraw. unfold raw_fields, js_or. cbn. by rewrite Htruthy.
  - destruct (set_inv _ _ _ _ Hset) as (f & _ & ->).
    by apply (written_keeps_rawJson_fields f that raw).
  - cbn in Hraw |- *. destruct (_rawJson that) as [| | | | | |raw0]; try done.
    simplify_eq. by rewrite lookup_insert_eq.
  - by apply (written_keeps_rawJson_fields _ that raw).
  - cbn in Hraw |- *. rewrite Hraw. unfold raw_fields, js_or. cbn. by rewrite Htruthy.
Qed.

(** On every state a constructed record reaches, whenever [_rawJson] is
    an object with a truthy [fields] member, [fields] is that member: what
    [set] writes shows in [_rawJson.fields] too. *)
Theorem fields_is_rawJson_fields tbl recordId recordJson constructed that (raw : obj) :
  init tbl recordId recordJson = Return constructed →
  rtc step constructed that →
  _rawJson that = VObj raw →
  truthy (default VUndefined (raw !! "fields")) = true →
  fields that = default VUndefined (raw !! "fields").
Proof.
  intros Hinit Hreach. revert raw.
  assert (∀ raw : obj, _rawJson constructed = VObj raw →
                       truthy (default VUndefined (raw !! "fields")) = true →
                       fields constructed = default VUndefined (raw !! "fields")) as Hstart.
  { intros raw Hraw Htruthy. unfold init in Hinit.
    destruct (if truthy recordId then _ else _) as [i|e]; [|done].
    cbn in Hinit. simplify_eq. cbn in Hraw |- *. rewrite Hraw.
    unfold raw_fields, js_or. cbn. by rewrite Htruthy. }
  clear Hinit. induction Hreach as [|that mid that' Hstep _ IH]; [done|].
  apply IH. by apply (step_keeps_rawJson_fields that mid).
Qed.

Lemma fields_is_rawJson_fields_after_set :
  fields {| _table := Sample.tasks;
            id := VStr "rec1";
            _rawJson := VObj Sample.body_a1b2;
            fields := VObj Sample.a1b2 |} = VObj Sample.a1b2.
Proof.
  apply (fields_is_rawJson_fields Sample.tasks (VStr "rec1")
           (VObj (<["id" := VStr "rec1"]> {["fields" := VObj Sample.a1]})) Sample.rec1
           _ Sample.body_a1b2).
  - reflexivity.
  - by apply rtc_once, (step_set "b" (VNum 2)).
  - reflexivity.
  - reflexivity.
Defined.

(** A successful [fetch], [patchUpdate], [putUpdate] or [save] discards
    what [set] wrote before the reply arrived: the record ends as it would
    have without the [set]. *)
Theorem refresh_discards_set columnName columnValue op earlier reply that that' :
  set columnName columnValue that = Some (Return that') →
  refreshes op = true →
  truthy (err reply) = false →
  answer (issue op earlier) reply that' = answer (issue op earlier) reply that.
Proof.
  intros Hset Hop Herr. destruct (set_inv _ _ _ _ Hset) as (f & _ & ->).
  rewrite !answer_success by done. cbn -[setRawJson]. by rewrite Hop.
Qed.

Lemma refresh_discards_set_rec1 :
  answer (issue Fetch Sample.rec1) Sample.reply_rec2
    {| _table := Sample.tasks;
       id := VStr "rec1";
       _rawJson := VObj Sample.body_a1b2;
       fields := VObj Sample.a1b2 |}
  = answer (issue Fetch Sample.rec1) Sample.reply_rec2 Sample.rec1.
Proof.
  apply (refresh_discards_set "b" (VNum 2) Fetch Sample.rec1 Sample.reply_rec2 Sample.rec1);
    reflexivity.
Defined.

(** [save] after a [set] that has written its column, on a record whose
    [fields] is a mapping: the request is a PUT on the record's path whose
    body is [{fields: F'}], [F'] being the snapshot with the column
    written.  ([set] has not, when the column is [__proto__] and the
    snapshot has no such property.) *)
Theorem save_sends_snapshot columnName columnValue that that' (F : obj) :
  fields that = VObj F →
  set columnName columnValue that = Some (Return that') →
  request (save that')
    = {| method := "put";
         action_path := record_path that;
         queryParams := VObj ∅;
         bodyData := VObj {["fields" := VObj (<[columnName := columnValue]> F)]} |}.
Proof.
  intros HF Hset. destruct (set_inv _ _ _ _ Hset) as (f & Hput & ->).
  rewrite HF in Hput. apply put_prop_mapping in Hput as ->.
  unfold save, putUpdate, runAction, request, assign. cbn.
  by rewrite (left_id_L ∅ (∪)).
Qed.

Lemma save_sends_snapshot_rec1 :
  bodyData (request (save {| _table := Sample.tasks;
                             id := VStr "rec1";
                             _rawJson := VObj Sample.body_a1b2;
                             fields := VObj Sample.a1b2 |}))
    = VObj {["fields" := VObj Sample.a1b2]}.
Proof.
  exact (f_equal bodyData
           (save_sends_snapshot "b" (VNum 2) Sample.rec1 _ Sample.a1 eq_refl eq_refl)).
Defined.

End RecordAccessors.

(** * Further properties of Table *)

Section TableAddressing.

Import Table.

Implicit Types (that : table) (recordId recordData : value) (o : option value).

(** A table cannot be constructed without an id or a name, and a
    constructed table is addressed by its id when that is truthy and by
    its encoded name, then truthy, otherwise. *)
Theorem table_is_addressable base tableId tableName :
  (truthy tableId = false → truthy tableName = false →
   init base tableId tableName = Throw (AssertionError "Table name or table ID is required")) ∧
  (∀ that, init base tableId tableName = Return that →
           (truthy tableId = true ∧ _urlEncodedNameOrId that = TableId tableId) ∨
           (truthy tableId = false ∧ truthy tableName = true ∧
            _urlEncodedNameOrId that = EncodedName tableName)).
Proof.
  unfold init, js_or, _urlEncodedNameOrId. split.
  - intros -> Hname. by rewrite Hname.
  - intros that. destruct (truthy tableId) eqn:Hid.
    + rewrite Hid. intros [= <-]. left. cbn. by rewrite Hid.
    + destruct (truthy tableName) eqn:Hname; [|done].
      intros [= <-]. right. cbn. by rewrite Hid.
Qed.

Lemma table_is_addressable_tasks :
  (truthy VUndefined = true ∧ _urlEncodedNameOrId Sample.tasks = TableId VUndefined) ∨
  (truthy VUndefined = false ∧ truthy (VStr "Tasks") = true ∧
   _urlEncodedNameOrId Sample.tasks = EncodedName (VStr "Tasks")).
Proof.
  destruct (table_is_addressable (VStr "appBase") VUndefined (VStr "Tasks")) as [_ Hinit].
  apply (Hinit Sample.tasks). reflexivity.
Defined.

Lemma init_by_id that recordId :
  AirtableRecord.init that recordId VUndefined =
    if truthy recordId
    then Return {| AirtableRecord._table := that;
                   AirtableRecord.id := recordId;
                   AirtableRecord._rawJson := VUndefined;
                   AirtableRecord.fields := VObj ∅ |}
    else Throw TypeError.
Proof. unfold AirtableRecord.init. by destruct (truthy recordId). Qed.

(** [find], [update], [replace] and [destroy] with a falsy record id
    (undefined, [null], the empty string) throw a TypeError and hand nothing
    to the dispatcher; with a truthy one, each addresses its one request to
    that record, with its own method, from a record whose [fields] is
    [{}]. *)
Theorem by_id_needs_an_id that recordId recordData o :
  (truthy recordId = false →
   _findRecordById recordId that = Throw TypeError ∧
   _updateRecord recordId recordData o that = Throw TypeError ∧
   _replaceRecord recordId recordData o that = Throw TypeError ∧
   _destroyRecord recordId that = Throw TypeError) ∧
  (truthy recordId = true →
   ∃ record,
     AirtableRecord.id record = recordId ∧
     AirtableRecord.fields record = VObj ∅ ∧
     (_findRecordById recordId that = Return (record, AirtableRecord.fetch record) ∧
      _updateRecord recordId recordData o that
        = Return (record, AirtableRecord.patchUpdate recordData o record) ∧
      _replaceRecord recordId recordData o that
        = Return (record, AirtableRecord.putUpdate recordData o record) ∧
      _destroyRecord recordId that = Return (record, AirtableRecord.destroy record)) ∧
     (method <$> [request (AirtableRecord.fetch record);
                  request (AirtableRecord.patchUpdate recordData o record);
                  request (AirtableRecord.putUpdate recordData o record);
                  request (AirtableRecord.destroy record)]
        = ["get"; "patch"; "put"; "delete"]) ∧
     Forall (λ a, action_path a = RecordPath (_urlEncodedNameOrId that) recordId)
       [request (AirtableRecord.fetch record);
        request (AirtableRecord.patchUpdate recordData o record);
        request (AirtableRecord.putUpdate recordData o record);
        request (AirtableRecord.destroy record)]).
Proof.
  unfold _findRecordById, _updateRecord, _replaceRecord, _destroyRecord.
  rewrite init_by_id. split; intros ->; [done|].
  exists {| AirtableRecord._table := that;
            AirtableRecord.id := recordId;
            AirtableRecord._rawJson := VUndefined;
            AirtableRecord.fields := VObj ∅ |}.
  split; [done|]. split; [done|]. split; [done|]. split; [done|].
  by repeat constructor.
Qed.

Lemma by_id_needs_an_id_empty :
  _findRecordById (VStr "") Sample.tasks = Throw TypeError ∧
  _updateRecord (VStr "") (VObj Sample.b2) None Sample.tasks = Throw TypeError ∧
  _replaceRecord (VStr "") (VObj Sample.b2) None Sample.tasks = Throw TypeError ∧
  _destroyRecord (VStr "") Sample.tasks = Throw TypeError.
Proof.
  destruct (by_id_needs_an_id Sample.tasks (VStr "") (VObj Sample.b2) None) as [Hfalsy _].
  apply Hfalsy. reflexivity.
Defined.

(** The record [find] hands to [done] on success has the id asked for,
    also when the body carries another, and the [fields] mapping of the
    body. *)
Theorem find_keeps_requested_id that recordId reply (raw F : obj) :
  truthy recordId = true →
  truthy (err reply) = false →
  body reply = VObj raw →
  raw !! "fields" = Some (VObj F) →
  ∃ record call found,
    _findRecordById recordId that = Return (record, call) ∧
    answer call reply record = (found, (VNull, Some found)) ∧
    AirtableRecord.id found = recordId ∧
    AirtableRecord.fields found = VObj F.
Proof.
  intros Hid Herr Hbody HF. unfold _findRecordById. rewrite init_by_id, Hid.
  eexists _, _, _. split; [done|].
  unfold answer, AirtableRecord.fetch, runAction, AirtableRecord.refresh. cbn -[AirtableRecord.setRawJson].
  rewrite Herr. split; [done|]. split; [done|].
  rewrite Hbody. cbn. unfold AirtableRecord.raw_fields. cbn. by rewrite HF.
Qed.

Lemma find_keeps_requested_id_rec9 :
  ∃ record call found,
    _findRecordById (VStr "rec9") Sample.tasks = Return (record, call) ∧
    answer call Sample.reply_a1b2 record = (found, (VNull, Some found)) ∧
    AirtableRecord.id found = VStr "rec9" ∧
    AirtableRecord.fields found = VObj Sample.a1b2.
Proof.
  apply (find_keeps_requested_id Sample.tasks (VStr "rec9") Sample.reply_a1b2
           Sample.body_a1b2 Sample.a1b2); reflexivity.
Defined.

End TableAddressing.

Section TableCallbacks.

Import Table.

Implicit Types (that : table) (reply : Reply) (o : option value).

Lemma mapM_init_throws that (records : list value) :
  Exists (λ recordJson, is_nullish recordJson = true) records →
  mapM (λ recordJson, AirtableRecord.init that VNull recordJson) records = Throw TypeError.
Proof.
  induction records as [|recordJson records IH]; intros Hhole.
  - by apply Exists_nil in Hhole.
  - cbn [mapM]. destruct (is_nullish recordJson) eqn:Hjson.
    + assert (AirtableRecord.init that VNull recordJson = Throw TypeError) as ->; [|done].
      unfold AirtableRecord.init, get_prop. cbn [truthy]. by rewrite Hjson.
    + rewrite init_record_of by done.
      apply Exists_cons in Hhole as [Hhole|Hhole]; [congruence|].
      cbn [mbind completion_bind]. by rewrite (IH Hhole).
Qed.

(** The callback of [create]: an error goes to [done] alone; a success
    without a body throws a TypeError; a success with a body hands [done] a
    record whose [id] is the body's [id] and whose raw JSON is the body, so
    that, when the body carries a [fields] mapping, [fields] is that
    mapping and [get] returns what it holds for the column, as a property
    [fields] has itself. *)
Theorem created_from_response that recordData o reply :
  let call := _createRecord recordData o that in
  (truthy (err reply) = true → answer call reply = Return (err reply, None)) ∧
  (truthy (err reply) = false → is_nullish (body reply) = true →
   answer call reply = Throw TypeError) ∧
  (truthy (err reply) = false →
   ∀ raw : obj, body reply = VObj raw →
     ∃ record,
       answer call reply = Return (VNull, Some record) ∧
       AirtableRecord.id record = default VUndefined (raw !! "id") ∧
       AirtableRecord._rawJson record = VObj raw ∧
       ∀ F : obj, raw !! "fields" = Some (VObj F) →
         AirtableRecord.fields record = VObj F ∧
         ∀ columnName, AirtableRecord.get columnName record = Return (F !! columnName)).
Proof.
  intros call. subst call. unfold answer, _createRecord, runAction. cbn [snd].
  split; [by intros ->|]. split.
  - intros -> Hbody. unfold get_prop. by rewrite Hbody.
  - intros -> raw ->. unfold get_prop, AirtableRecord.init. cbn [is_nullish mbind completion_bind].
    exists (record_of that (VObj raw)). split.
    { by destruct (truthy (read_prop (VObj raw) "id")). }
    split; [done|]. split; [done|].
    intros F HF. cbn. unfold AirtableRecord.raw_fields, AirtableRecord.get. cbn.
    by rewrite HF.
Qed.

Lemma created_from_response_name_a :
  ∃ record,
    answer (_createRecord (VObj More.name_a) None Sample.tasks) More.reply_created
      = Return (VNull, Some record) ∧
    AirtableRecord.id record = VStr "rec1" ∧
    AirtableRecord.get "name" record = Return (Some (VStr "a")).
Proof.
  destruct (created_from_response Sample.tasks (VObj More.name_a) None More.reply_created)
    as (_ & _ & Hcreated).
  destruct (Hcreated eq_refl More.body_created eq_refl) as (record & Hdone & Hid & _ & Hfields).
  exists record. split; [exact Hdone|]. split; [exact Hid|].
  destruct (Hfields More.name_a eq_refl) as [_ Hget]. exact (Hget "name").
Defined.

(** The parameters of a page request are [limit] and [offset] as passed,
    with every entry of [opts] written over them: an [opts] with a [limit]
    or an [offset] of its own replaces the one passed; the request is a GET
    on the table's path, without a body. *)
Theorem list_parameters that limit offset (O : obj) :
  let a := request (_listRecords limit offset (Some (VObj O)) that) in
  method a = "get" ∧
  action_path a = TablePath (_urlEncodedNameOrId that) ∧
  bodyData a = VNull ∧
  request (_listRecords limit offset None that)
    = request (_listRecords limit offset (Some (VObj ∅)) that) ∧
  ∀ k, read_prop (queryParams a) k =
         match O !! k with
         | Some v => v
         | None => if decide (k = "limit") then limit
                   else if decide (k = "offset") then offset else VUndefined
         end.
Proof.
  intros a. subst a. split; [done|]. split; [done|]. split; [done|]. split; [done|].
  intros k. cbn. unfold assign. cbn. rewrite lookup_union.
  destruct (O !! k) as [v|] eqn:HO.
  - by destruct (<["limit" := limit]> {["offset" := offset]} !! k).
  - rewrite (left_id_L None union). case_decide as Hlimit.
    + subst k. by rewrite lookup_insert_eq.
    + rewrite lookup_insert_ne by done. case_decide as Hoffset.
      * subst k. by rewrite lookup_singleton_eq.
      * by rewrite lookup_singleton_ne.
Qed.

(** The callback of a page request: an error goes to [done] alone; a
    success without a body, or with a [null] or undefined entry among its
    records, throws a TypeError; a success whose body has no [records]
    member, or a [null] one, is an empty page with the body's offset. *)
Theorem list_callback_edges that limit offset o reply :
  let call := _listRecords limit offset o that in
  (truthy (err reply) = true → answer call reply = Return (err reply, None, VUndefined)) ∧
  (truthy (err reply) = false → is_nullish (body reply) = true →
   answer call reply = Throw TypeError) ∧
  (truthy (err reply) = false → is_nullish (body reply) = false →
   Exists (λ recordJson, is_nullish recordJson = true)
     (elements_of (read_prop (body reply) "records")) →
   answer call reply = Throw TypeError) ∧
  (truthy (err reply) = false → is_nullish (body reply) = false →
   is_nullish (read_prop (body reply) "records") = true →
   answer call reply = Return (VNull, Some [], read_prop (body reply) "offset")).
Proof.
  intros call. subst call. unfold answer, _listRecords, runAction. cbn [snd].
  split; [by intros ->|]. split; [|split].
  - intros -> Hbody. unfold get_prop. by rewrite Hbody.
  - intros -> Hbody Hhole. unfold get_prop. rewrite Hbody. cbn [mbind completion_bind].
    by rewrite mapM_init_throws.
  - intros -> Hbody Hrecords. unfold get_prop. rewrite Hbody. cbn [mbind completion_bind].
    by destruct (read_prop (body reply) "records").
Qed.

Lemma list_callback_edges_samples :
  answer (_listRecords (VNum 100) VNull None Sample.tasks) More.reply_empty = Throw TypeError ∧
  answer (_listRecords (VNum 100) VNull None Sample.tasks) More.reply_hole = Throw TypeError ∧
  answer (_listRecords (VNum 100) VNull None Sample.tasks) More.reply_no_records
    = Return (VNull, Some [], VStr "itr2").
Proof.
  destruct (list_callback_edges Sample.tasks (VNum 100) VNull None More.reply_empty)
    as (_ & Hempty & _).
  destruct (list_callback_edges Sample.tasks (VNum 100) VNull None More.reply_hole)
    as (_ & _ & Hhole & _).
  destruct (list_callback_edges Sample.tasks (VNum 100) VNull None More.reply_no_records)
    as (_ & _ & _ & Hnone).
  split; [by apply Hempty|]. split.
  - apply Hhole; [reflexivity|reflexivity|]. apply Exists_cons_tl, Exists_cons_hd. reflexivity.
  - by apply Hnone.
Defined.

End TableCallbacks.

(** * Further properties of the iteration *)

Section IterationInGeneral.

Import Table.

Context {U : Type}.
Variable callback : AirtableRecord.t → nat → list AirtableRecord.t → U → U * value.
Variables (that : table) (limit opts : value).

Implicit Types (reply : Reply) (replies more : list Reply) (cursor : value) (u : U)
  (trace : list event) (page : list AirtableRecord.t).

(** [nextPage] on a reply, without the destructuring of pairs. *)
Lemma nextPage_cons cursor reply replies u :
  nextPage callback that limit opts cursor (reply :: replies) u =
    match answer (_listRecords limit cursor (Some opts) that) reply with
    | Throw e => (issued that limit opts cursor ++ [EvThrow e], u)
    | Return (err, page, newOffset) =>
        if truthy err then (issued that limit opts cursor ++ [EvDone [err]], u)
        else
          let visited := forEach callback (default [] page) u in
          if truthy newOffset
          then let later := nextPage callback that limit opts newOffset replies visited.2 in
               (issued that limit opts cursor
                  ++ EvForEach (default [] page) :: visited.1 ++ later.1, later.2)
          else (issued that limit opts cursor
                  ++ EvForEach (default [] page) :: visited.1 ++ [EvDone []], visited.2)
    end.
Proof.
  cbn [nextPage]. destruct (answer _ reply) as [[[err page] newOffset]|e]; [|done].
  destruct (truthy err); [done|]. cbn zeta.
  destruct (forEach callback (default [] page) u) as [visits u'].
  destruct (truthy newOffset); [|done].
  by destruct (nextPage _ _ _ _ _ _ _) as [later u''].
Qed.

Lemma nextPage_starts cursor replies u :
  ∃ rest, (nextPage callback that limit opts cursor replies u).1
            = issued that limit opts cursor ++ rest.
Proof.
  destruct replies as [|reply replies]; [by exists []|]. rewrite nextPage_cons.
  destruct (answer _ reply) as [[[err page] newOffset]|e]; [|by eexists].
  destruct (truthy err); [by eexists|]. cbn zeta.
  destruct (truthy newOffset); by eexists.
Qed.

Lemma forEach_from_shown (rest : list AirtableRecord.t) index page u :
  ∃ n : nat, (n ≤ length rest)%nat ∧
       (length rest ≠ 0 → n ≠ 0)%nat ∧
       (forEach_from callback index page rest u).1
         = imap (λ i record, EvCallback record (index + i)%nat) (take n rest) ∧
       ((∀ record i u', (callback record i page u').2 ≠ VBool false) → n = length rest).
Proof.
  revert index u. induction rest as [|record rest IH]; intros index u.
  - exists 0%nat. by repeat split.
  - cbn [forEach_from]. destruct (callback record index page u) as [u' result] eqn:Hcall.
    destruct (IH (S index) u') as (n & Hn & _ & Hshown & Hall).
    destruct (forEach_from callback (S index) page rest u') as [visits u''].
    cbn [fst] in Hshown.
    assert (EvCallback record index :: visits
            = imap (λ i r, EvCallback r (index + i)%nat) (take (S n) (record :: rest))) as Hmore.
    { cbn [take imap]. rewrite Nat.add_0_r. f_equal. rewrite Hshown.
      apply imap_ext. intros i r _. cbn. f_equal. lia. }
    assert ((∀ r i u0, (callback r i page u0).2 ≠ VBool false) → S n = length (record :: rest))
      as Hmore_all.
    { intros Hnever. cbn. f_equal. by apply Hall. }
    destruct result as [| |[]| | | |];
      try (exists (S n); cbn [fst length]; split; [lia|]; split; [done|]; split; done).
    exists 1%nat. cbn [fst length]. split; [lia|]. split; [done|]. split.
    + cbn. by rewrite Nat.add_0_r.
    + intros Hnever. specialize (Hnever record index u). by rewrite Hcall in Hnever.
Qed.

Lemma forEach_shows_prefix_all page u :
  (∀ record i page' u', (callback record i page' u').2 ≠ VBool false) →
  (forEach callback page u).1 = shown (length page) page.
Proof.
  intros Hnever.
  destruct (forEach_from_shown page 0 page u) as (n & _ & _ & Hshown & Hall).
  rewrite <-(Hall (λ record i u', Hnever record i page u')).
  unfold forEach, shown. rewrite Hshown. by apply imap_ext.
Qed.

(** [forEach(page, callback)] shows the callback a prefix of the page,
    record by record in the order of the page, each with its index from 0:
    the first record always, and all of them when the callback never
    returns [false]. *)
Theorem forEach_shows_prefix page u :
  ∃ n : nat, (n ≤ length page)%nat ∧
       (length page ≠ 0 → n ≠ 0)%nat ∧
       (forEach callback page u).1 = shown n page ∧
       ((∀ record i u', (callback record i page u').2 ≠ VBool false) → n = length page).
Proof.
  destruct (forEach_from_shown page 0 page u) as (n & Hn & Hfirst & Hshown & Hall).
  exists n. split; [done|]. split; [done|]. split; [|done].
  unfold forEach, shown. rewrite Hshown. by apply imap_ext.
Qed.

Lemma forEach_hidden {A} (f : event → option A) page u :
  (∀ record index, f (EvCallback record index) = None) →
  omap f (forEach callback page u).1 = [].
Proof. intros Hf. by apply omap_forEach_from. Qed.

(** A run of the iteration ends in one of three ways, whatever the
    dispatcher replies: it waits for a reply, its last event being the
    request; or [done] is called, once, as the last event; or an exception
    is thrown, as the last event, and [done] is never called. *)
Theorem run_ends_once cursor replies u :
  let trace := (nextPage callback that limit opts cursor replies u).1 in
  (completions trace = [] ∧ thrown trace = [] ∧ ∃ a, last trace = Some (EvRunAction a)) ∨
  (∃ before args, trace = before ++ [EvDone args] ∧
                  completions before = [] ∧ thrown before = []) ∨
  (∃ before e, trace = before ++ [EvThrow e] ∧
               completions before = [] ∧ thrown before = []).
Proof.
  revert cursor u. induction replies as [|reply replies IH]; intros cursor u trace;
    subst trace.
  - left. split; [done|]. split; [done|]. by eexists.
  - rewrite nextPage_cons.
    destruct (answer _ reply) as [[[err page] newOffset]|e].
    2:{ right; right. by exists (issued that limit opts cursor), e. }
    destruct (truthy err).
    { right; left. by exists (issued that limit opts cursor), [err]. }
    cbn zeta.
    pose proof (forEach_hidden (λ e, match e with EvDone args => Some args | _ => None end)
                  (default [] page) u (λ _ _, eq_refl)) as Hdone.
    pose proof (forEach_hidden (λ e, match e with EvThrow e => Some e | _ => None end)
                  (default [] page) u (λ _ _, eq_refl)) as Hthrown.
    set (visited := forEach callback (default [] page) u) in *.
    assert (∀ later,
              completions (issued that limit opts cursor
                             ++ EvForEach (default [] page) :: visited.1 ++ later)
                = completions later ∧
              thrown (issued that limit opts cursor
                        ++ EvForEach (default [] page) :: visited.1 ++ later)
                = thrown later) as Hskip.
    { intros later. unfold completions, thrown. cbn [issued app omap list_omap].
      by rewrite !omap_app, Hdone, Hthrown. }
    destruct (truthy newOffset); cbn [fst].
    + destruct (IH newOffset visited.2)
        as [(Hd & Ht & a & Hlast)|[(before & args & Hrun & Hd & Ht)|(before & e & Hrun & Hd & Ht)]].
      * left. destruct (Hskip (nextPage callback that limit opts newOffset replies visited.2).1)
          as [-> ->].
        split; [done|]. split; [done|]. exists a.
        rewrite (app_comm_cons _ _ (EvForEach _)), !app_assoc.
        rewrite last_app, Hlast. done.
      * right; left.
        exists (issued that limit opts cursor ++ EvForEach (default [] page) :: visited.1 ++ before),
          args.
        rewrite Hrun. destruct (Hskip before) as [-> ->].
        split; [|done]. by simplify_list_eq.
      * right; right.
        exists (issued that limit opts cursor ++ EvForEach (default [] page) :: visited.1 ++ before),
          e.
        rewrite Hrun. destruct (Hskip before) as [-> ->].
        split; [|done]. by simplify_list_eq.
    + right; left.
      exists (issued that limit opts cursor ++ EvForEach (default [] page) :: visited.1), [].
      destruct (Hskip []) as [Hd Ht]. rewrite app_nil_r in Hd, Ht. rewrite Hd, Ht.
      split; [|done]. by simplify_list_eq.
Qed.

(** What a run has done is not undone by the replies that come later: the
    run against the replies received so far is a prefix of the run against
    these and any further replies. *)
Theorem run_extends cursor replies more u :
  (nextPage callback that limit opts cursor replies u).1
    `prefix_of` (nextPage callback that limit opts cursor (replies ++ more) u).1.
Proof.
  revert cursor u. induction replies as [|reply replies IH]; intros cursor u.
  - cbn [app]. destruct (nextPage_starts cursor more u) as [rest ->].
    by apply prefix_app_r.
  - cbn [app]. rewrite !nextPage_cons.
    destruct (answer _ reply) as [[[err page] newOffset]|e]; [|done].
    destruct (truthy err); [done|]. cbn zeta.
    destruct (truthy newOffset); [|done]. cbn [fst].
    apply prefix_app, (prefix_cons (EvForEach _)), prefix_app, IH.
Qed.

Lemma nextPage_requests cursor replies u :
  requests (nextPage callback that limit opts cursor replies u).1
    = (λ c, request (_listRecords limit c (Some opts) that))
        <$> cursors (nextPage callback that limit opts cursor replies u).1 ∧
  (length (requests (nextPage callback that limit opts cursor replies u).1)
     ≤ S (length replies))%nat.
Proof.
  revert cursor u.
  induction replies as [|reply replies IH]; intros cursor u; [by split|].
  rewrite nextPage_cons.
  destruct (answer _ reply) as [[[err page] newOffset]|e]; [|split; [done|cbn; lia]].
  destruct (truthy err); [split; [done|cbn; lia]|]. cbn zeta.
  pose proof (forEach_hidden
                (λ e, match e with EvListRecords _ offset _ => Some offset | _ => None end)
                (default [] page) u (λ _ _, eq_refl)) as Hcursors.
  pose proof (forEach_hidden (λ e, match e with EvRunAction a => Some a | _ => None end)
                (default [] page) u (λ _ _, eq_refl)) as Hrequests.
  set (visited := forEach callback (default [] page) u) in *.
  destruct (truthy newOffset); cbn [fst].
  - destruct (IH newOffset visited.2) as [IHrequests IHlength].
    unfold requests, cursors in *. cbn [issued app omap list_omap].
    rewrite !omap_app, Hcursors, Hrequests. cbn [app fmap list_fmap length].
    rewrite IHrequests. split; [done|]. rewrite <-IHrequests. lia.
  - unfold requests, cursors. cbn [issued app omap list_omap].
    rewrite !omap_app, Hcursors, Hrequests. split; [done|]. cbn. lia.
Qed.

(** Whatever the dispatcher replies, every request of the iteration is
    the page request for one of its cursors, so a GET on the table's path
    without a body, and there is at most one request more than there are
    replies. *)
Theorem requests_are_page_requests cursor replies u :
  let trace := (nextPage callback that limit opts cursor replies u).1 in
  requests trace
    = (λ c, request (_listRecords limit c (Some opts) that)) <$> cursors trace ∧
  (length (requests trace) ≤ S (length replies))%nat ∧
  Forall (λ a, method a = "get" ∧
               action_path a = TablePath (_urlEncodedNameOrId that) ∧
               bodyData a = VNull)
    (requests trace).
Proof.
  intros trace. destruct (nextPage_requests cursor replies u) as [Hrequests Hlength].
  split; [done|]. split; [done|]. subst trace. rewrite Hrequests.
  apply Forall_fmap, Forall_forall. by intros c _.
Qed.

(** Unless [opts] has a [limit] of its own, every request of the
    iteration asks for [limit] records. *)
Lemma nextPage_limit cursor replies u :
  own_props opts !! "limit" = None →
  Forall (λ a, read_prop (queryParams a) "limit" = limit)
    (requests (nextPage callback that limit opts cursor replies u).1).
Proof.
  intros Hopts. destruct (nextPage_requests cursor replies u) as [-> _].
  apply Forall_fmap, Forall_forall. intros c _. cbn. unfold assign.
  by rewrite lookup_union, Hopts, (left_id_L None union), lookup_insert_eq.
Qed.

Lemma listRecords_no_body cursor o reply :
  truthy (err reply) = false →
  is_nullish (body reply) = true →
  answer (_listRecords limit cursor o that) reply = Throw TypeError.
Proof.
  intros Herr Hbody. unfold answer, _listRecords, runAction, get_prop. cbn [snd].
  by rewrite Herr, Hbody.
Qed.

(** After pages with truthy offsets, a successful reply without a body
    ends the run with a TypeError, whatever replies would follow. *)
Lemma nextPage_throws_after replies ps bad more cursor u :
  Forall2 delivers replies ps →
  Forall continuing ps →
  truthy (err bad) = false →
  is_nullish (body bad) = true →
  ∃ visitss,
    Forall2 (visits_of callback that) ps visitss ∧
    (nextPage callback that limit opts cursor replies u).1
      = blocks that limit opts cursor ps visitss
          ++ issued that limit opts (last_offset cursor ps) ∧
    nextPage callback that limit opts cursor (replies ++ bad :: more) u
      = ((nextPage callback that limit opts cursor replies u).1 ++ [EvThrow TypeError],
         (nextPage callback that limit opts cursor replies u).2).
Proof.
  intros Hps Hgo Herr Hbody.
  destruct (nextPage_continues callback that limit opts _ _ Hps Hgo cursor u)
    as (visitss & u' & Hvisits & Hrun).
  exists visitss. split; [done|].
  pose proof (Hrun []) as Hwait. rewrite app_nil_r, nextPage_waiting in Hwait.
  rewrite (Hrun (bad :: more)), Hwait, nextPage_cons, listRecords_no_body by done.
  cbn [fst snd]. split; [done|]. by rewrite <-app_assoc.
Qed.

Lemma visited_shown (n : nat) page :
  visited (shown n page) = imap (λ index record, (record, index)) (take n page).
Proof.
  unfold shown, visited. generalize (take n page). clear n page. intros page.
  assert (∀ k, omap (λ e, match e with
                          | EvCallback record index => Some (record, index)
                          | _ => None
                          end)
                 (imap (λ index record, EvCallback record (k + index)%nat) page)
               = imap (λ index record, (record, (k + index)%nat)) page) as Hshift.
  { induction page as [|record page IH]; intros k; [done|].
    cbn [imap omap list_omap]. f_equal.
    rewrite (imap_ext _ (λ index record, EvCallback record (S k + index)%nat) page)
      by (intros i r _; cbn; f_equal; lia).
    rewrite (imap_ext (_ ∘ S) (λ index record, (record, (S k + index)%nat)) page)
      by (intros i r _; cbn; f_equal; lia).
    apply IH. }
  apply (Hshift 0%nat).
Qed.

(** When the callback never returns [false], the callback invocations of
    the blocks are those on every record of every page, in order. *)
Lemma visited_blocks cursor ps visitss :
  (∀ record i page u, (callback record i page u).2 ≠ VBool false) →
  Forall2 (visits_of callback that) ps visitss →
  visited (blocks that limit opts cursor ps visitss)
    = mjoin ((λ p, imap (λ index record, (record, index)) (page_of that p)) <$> ps).
Proof.
  intros Hnever Hvisits. revert cursor.
  induction Hvisits as [|p visits ps visitss [u Hp] _ IH]; intros cursor; [done|].
  cbn [blocks issued app]. unfold visited. cbn [omap list_omap]. rewrite omap_app.
  fold (visited visits). fold (visited (blocks that limit opts (page_offset p) ps visitss)).
  rewrite IH, fmap_cons. cbn [mjoin list_join]. f_equal.
  rewrite Hp, (forEach_shows_prefix_all (page_of that p) u Hnever), visited_shown.
  by rewrite firstn_all.
Qed.

End IterationInGeneral.

Section ForEachRecordFurther.

Import Table.

Context {U : Type}.
Variable callback : AirtableRecord.t → nat → list AirtableRecord.t → U → U * value.
Variable that : table.

Implicit Types (recordsPerPage : value) (o : option value) (reply : Reply)
  (replies more : list Reply) (p final : page) (ps : list page) (u : U).

(** Every request of [forEach] asks for
    [Table.__recordsPerPageForIteration] records a page, and for 100 when
    that is unset or otherwise falsy, unless [opts] has a [limit] of its
    own; this whatever the dispatcher replies. *)
Theorem page_size_requested recordsPerPage o replies u :
  own_props (default (VObj ∅) o) !! "limit" = None →
  Forall (λ a, read_prop (queryParams a) "limit"
               = if truthy recordsPerPage then recordsPerPage else VNum 100)
    (requests (_forEachRecord callback recordsPerPage o that replies u).1).
Proof. intros Hopts. unfold _forEachRecord. by apply nextPage_limit. Qed.

(** After any pages, a successful reply without a body ends the
    iteration with a TypeError: [done] is never called and nothing is
    requested any more, while the pages before it stay processed. *)
Theorem reply_without_body_ends_run recordsPerPage o replies ps bad more u :
  Forall2 delivers replies ps →
  Forall continuing ps →
  truthy (err bad) = false →
  is_nullish (body bad) = true →
  let waiting := _forEachRecord callback recordsPerPage o that replies u in
  let run := _forEachRecord callback recordsPerPage o that (replies ++ bad :: more) u in
  run = (waiting.1 ++ [EvThrow TypeError], waiting.2) ∧
  completions run.1 = [] ∧
  length (requests run.1) = S (length ps) ∧
  processed run.1 = page_of that <$> ps.
Proof.
  intros Hps Hgo Herr Hbody waiting run. subst waiting run. unfold _forEachRecord.
  destruct (nextPage_throws_after callback that (js_or recordsPerPage (VNum 100))
              (default (VObj ∅) o) _ _ _ more VNull u Hps Hgo Herr Hbody)
    as (visitss & Hvisits & Hwaiting & ->).
  split; [done|]. cbn [fst]. rewrite Hwaiting.
  rewrite !processed_app, !requests_app, !completions_app, !length_app.
  rewrite (processed_blocks callback), (requests_blocks callback),
    (completions_blocks callback) by done.
  cbn. rewrite !app_nil_r. split_and!; [done|lia|done].
Qed.

(** When the callback never returns [false], the iteration shows it every
    record of every page exactly once, page after page in the order of the
    responses, each with its index in its page. *)
Theorem every_record_shown recordsPerPage o replies ps final_reply final more u :
  (∀ record i page u', (callback record i page u').2 ≠ VBool false) →
  Forall2 delivers replies ps →
  Forall continuing ps →
  delivers final_reply final →
  truthy (page_offset final) = false →
  visited (_forEachRecord callback recordsPerPage o that (replies ++ final_reply :: more) u).1
    = mjoin ((λ p, imap (λ index record, (record, index)) (page_of that p))
               <$> ps ++ [final]).
Proof.
  intros Hnever Hps Hgo Hfinal Hstop. unfold _forEachRecord.
  destruct (nextPage_exhausts callback that (js_or recordsPerPage (VNum 100))
              (default (VObj ∅) o) _ _ _ _ more VNull u Hps Hgo Hfinal Hstop)
    as (visitss & Hvisits & ->).
  unfold visited. rewrite omap_app. cbn [omap list_omap]. rewrite app_nil_r.
  by apply (visited_blocks callback).
Qed.

End ForEachRecordFurther.

Section ForEachRecordFurtherExamples.

Import Table.

Lemma forEach_shows_prefix_count :
  (forEach Sample.count (page_of Sample.tasks Sample.page1) 0%nat).1
    = shown 2 (page_of Sample.tasks Sample.page1).
Proof.
  destruct (forEach_shows_prefix Sample.count (page_of Sample.tasks Sample.page1) 0%nat)
    as (n & _ & _ & Hshown & Hall).
  rewrite Hshown. f_equal. apply Hall. discriminate.
Defined.

Lemma page_size_requested_default :
  Forall (λ a, read_prop (queryParams a) "limit" = VNum 100)
    (requests (_forEachRecord Sample.count VUndefined None Sample.tasks
                 [Sample.reply1; Sample.reply2] 0%nat).1).
Proof.
  apply (page_size_requested Sample.count Sample.tasks VUndefined None
           [Sample.reply1; Sample.reply2] 0%nat).
  reflexivity.
Defined.

Lemma reply_without_body_ends_run_second :
  let run := _forEachRecord Sample.count VUndefined None Sample.tasks
               [Sample.reply1; More.reply_empty; Sample.reply2] 0%nat in
  completions run.1 = [] ∧ last run.1 = Some (EvThrow TypeError) ∧
  length (requests run.1) = 2%nat.
Proof.
  destruct (reply_without_body_ends_run Sample.count Sample.tasks VUndefined None
              [Sample.reply1] [Sample.page1] More.reply_empty [Sample.reply2] 0%nat)
    as (Hrun & Hdone & Hrequests & _).
  - constructor; [apply reply1_delivers|constructor].
  - by repeat constructor.
  - reflexivity.
  - reflexivity.
  - split; [exact Hdone|]. split; [exact (f_equal (λ r, last r.1) Hrun)|exact Hrequests].
Defined.

Lemma every_record_shown_two_pages :
  (visited (_forEachRecord Sample.count VUndefined None Sample.tasks
              [Sample.reply1; Sample.reply2] 0%nat).1).*2
    = [0; 1; 0]%nat.
Proof.
  refine (f_equal (fmap snd)
            (every_record_shown Sample.count Sample.tasks VUndefined None
               [Sample.reply1] [Sample.page1] Sample.reply2 Sample.page2 [] 0%nat _ _ _ _ _)).
  - discriminate.
  - constructor; [apply reply1_delivers|constructor].
  - by repeat constructor.
  - apply reply2_delivers.
  - reflexivity.
Defined.

(** A caller that returns [false] on every record is shown the first
    record of each page, and both pages are fetched all the same. *)
Example first_only_sees_first_of_each_page :
  let trace := (_forEachRecord More.first_only VUndefined None Sample.tasks
                  [Sample.reply1; Sample.reply2] 0%nat).1 in
  (AirtableRecord.id ∘ fst <$> visited trace) = [VStr "rec1"; VStr "rec3"] ∧
  length (requests trace) = 2%nat ∧ completions trace = [[]].
Proof. repeat split; reflexivity. Qed.

End ForEachRecordFurtherExamples.

(** * Further properties of select *)

Section SelectFurther.

Import Table.

Variable validate : obj → validation.

Implicit Types (that : table) (params : obj) (extra : list value).

(** [select] takes an object or nothing: called without a parameter or
    with [undefined] it behaves as called with [{}], and with anything
    else that is not an object ([null], an array, a string, a number, a
    boolean) it fails the assertion on the parameter's shape, before any
    validation. *)
Theorem select_parameter_shape that :
  (_selectRecords validate [] that = _selectRecords validate [VObj ∅] that ∧
   _selectRecords validate [VUndefined] that = _selectRecords validate [VObj ∅] that) ∧
  (∀ v extra,
     v ≠ VUndefined → is_mapping v = false →
     (_selectRecords validate (v :: extra) that).2
       = Throw (AssertionError
                  "Airtable: the parameter for `select` should be a plain object or undefined.")).
Proof.
  split; [done|]. intros v extra Hdefined Hshape. unfold _selectRecords. cbn [head default].
  by destruct v.
Qed.

(** [select] on an object returns a query exactly when the validation
    reports no error; the query then holds the valid parameters, and the
    parameters the validation sets aside do not fail the call: they are
    named in a warning.  Nothing goes to the dispatcher either way. *)
Theorem select_succeeds_without_errors that params extra :
  let selected := _selectRecords validate (VObj params :: extra) that in
  ((∃ query, selected.2 = Return query) ↔ errors (validate params) = []) ∧
  (errors (validate params) = [] →
   selected.2 = Return (mkQuery that (validParams (validate params))) ∧
   (ignoredKeys (validate params) ≠ [] →
    EvWarn ("Airtable: the following parameters to `select` will be ignored: "
              +:+ String.concat ", " (ignoredKeys (validate params))) ∈ selected.1)) ∧
  requests selected.1 = [].
Proof.
  intros selected. subst selected. unfold _selectRecords. cbn [head default from_option id].
  destruct (decide (errors (validate params) ≠ [])) as [Herrors|Hnone].
  - cbn [fst snd]. split; [|split].
    + split; [by intros [query ?]|done].
    + done.
    + by case_decide.
  - apply dec_stable in Hnone. cbn [fst snd]. split; [|split].
    + split; [done|by eexists].
    + intros _. split; [done|]. intros Hignored.
      rewrite (decide_True (P := ignoredKeys _ ≠ [])) by done.
      apply elem_of_app. right. constructor.
    + unfold requests. rewrite omap_app. by repeat case_decide.
Qed.

End SelectFurther.

Section SelectFurtherExamples.

Import Table.

Lemma select_parameter_shape_null :
  (_selectRecords More.lenient [VNull] Sample.tasks).2
    = Throw (AssertionError
               "Airtable: the parameter for `select` should be a plain object or undefined.").
Proof.
  destruct (select_parameter_shape More.lenient Sample.tasks) as [_ Hshape].
  apply (Hshape VNull []); [discriminate|reflexivity].
Defined.

Lemma select_succeeds_without_errors_lenient :
  let selected := _selectRecords More.lenient [VObj Sample.foo1] Sample.tasks in
  selected.2 = Return (mkQuery Sample.tasks ∅) ∧
  EvWarn "Airtable: the following parameters to `select` will be ignored: foo" ∈ selected.1.
Proof.
  destruct (select_succeeds_without_errors More.lenient Sample.tasks Sample.foo1 [])
    as (_ & Hselected & _).
  destruct (Hselected eq_refl) as [Hquery Hwarned].
  split; [exact Hquery|]. apply Hwarned. discriminate.
Defined.

End SelectFurtherExamples.

(** * Further properties of the client configuration *)

Section ClientConfiguration.

Import Airtable.

Implicit Types (cls : statics) (env : obj) (opts : value) (airtable : t).

Lemma default_settings env :
  read_prop (VObj (default_config env)) "apiVersion" = VStr "0.1.0" ∧
  read_prop (VObj (default_config env)) "apiKey" = default VUndefined (env !! "AIRTABLE_API_KEY") ∧
  read_prop (VObj (default_config env)) "endpointUrl"
    = js_or (default VUndefined (env !! "AIRTABLE_ENDPOINT_URL"))
            (VStr "https://api.airtable.com") ∧
  read_prop (VObj (default_config env)) "allowUnauthorizedSsl" = VBool false ∧
  read_prop (VObj (default_config env)) "noRetryIfRateLimited" = VBool false ∧
  read_prop (VObj (default_config env)) "requestTimeout" = VNum 300000.
Proof. by repeat split. Qed.

Lemma init_resolved cls env opts :
  init cls env opts =
    match resolved (apiVersion cls) "apiVersion" env opts with
    | VStr version =>
        if truthy (resolved (apiKey cls) "apiKey" env opts)
        then Return {| _apiKey := resolved (apiKey cls) "apiKey" env opts;
                       _endpointUrl := resolved (endpointUrl cls) "endpointUrl" env opts;
                       _apiVersion := VStr version;
                       _apiVersionMajor := VStr (before_dot version);
                       _allowUnauthorizedSsl :=
                         resolved (allowUnauthorizedSsl cls) "allowUnauthorizedSsl" env opts;
                       _noRetryIfRateLimited :=
                         resolved (noRetryIfRateLimited cls) "noRetryIfRateLimited" env opts;
                       requestTimeout :=
                         js_or (read_prop (js_or opts (VObj ∅)) "requestTimeout") (VNum 300000) |}
        else Throw (AssertionError "API key is required to connect to Airtable")
    | _ => Throw TypeError
    end.
Proof.
  unfold init. fold (resolved (apiVersion cls) "apiVersion" env opts).
  fold (resolved (apiKey cls) "apiKey" env opts).
  fold (resolved (endpointUrl cls) "endpointUrl" env opts).
  fold (resolved (allowUnauthorizedSsl cls) "allowUnauthorizedSsl" env opts).
  fold (resolved (noRetryIfRateLimited cls) "noRetryIfRateLimited" env opts).
  by destruct (resolved (apiVersion cls) "apiVersion" env opts).
Qed.

Lemma js_or_truthy (a b : value) : truthy b = true → truthy (js_or a b) = true.
Proof. intros Hb. unfold js_or. by destruct (truthy a) eqn:Ha. Qed.

Lemma js_or_truthy_l (a b : value) : truthy a = true → js_or a b = a.
Proof. intros Ha. unfold js_or. by rewrite Ha. Qed.

Lemma before_dot_app (a b : string) :
  dot_free a = true → before_dot (a +:+ dot +:+ b) = a.
Proof.
  induction a as [|c a IH]; [done|]. cbn [dot_free String.append before_dot].
  intros [Hc Ha]%andb_prop. apply negb_true_iff in Hc.
  change (String c a +:+ dot +:+ b) with (String c (a +:+ dot +:+ b)).
  cbn [before_dot]. rewrite Hc. f_equal. by apply IH.
Qed.

Lemma before_dot_free (s : string) : dot_free (before_dot s) = true.
Proof.
  induction s as [|c s IH]; [done|]. cbn [before_dot].
  destruct (Ascii.eqb c (Ascii.ascii_of_nat 46)) eqn:Hc; [done|].
  cbn [dot_free]. by rewrite Hc.
Qed.

(** A constructed client has a truthy API key, endpoint URL and request
    timeout, and its API version is a string whose part before the first
    dot is the major version. *)
Theorem client_is_complete cls env opts airtable :
  init cls env opts = Return airtable →
  truthy (_apiKey airtable) = true ∧
  truthy (_endpointUrl airtable) = true ∧
  truthy (requestTimeout airtable) = true ∧
  ∃ version, _apiVersion airtable = VStr version ∧
             _apiVersionMajor airtable = VStr (before_dot version) ∧
             dot_free (before_dot version) = true ∧
             ∀ major rest, dot_free major = true → version = major +:+ dot +:+ rest →
                           _apiVersionMajor airtable = VStr major.
Proof.
  rewrite init_resolved.
  destruct (resolved (apiVersion cls) "apiVersion" env opts) as [| | | |version| |]; try done.
  destruct (truthy (resolved (apiKey cls) "apiKey" env opts)) eqn:Hkey; [|done].
  intros [= <-]. cbn. split; [done|]. split; [|split].
  - unfold resolved. apply js_or_truthy. destruct (default_settings env) as (_ & _ & -> & _).
    by apply js_or_truthy.
  - by apply js_or_truthy.
  - exists version. split; [done|]. split; [done|]. split; [apply before_dot_free|].
    intros major rest Hmajor ->. by rewrite before_dot_app.
Qed.

Lemma client_is_complete_default :
  truthy (_apiKey (Sample.client (VBool false))) = true ∧
  _apiVersionMajor (Sample.client (VBool false)) = VStr "0".
Proof.
  destruct (client_is_complete Sample.no_statics ∅ Sample.key_only (Sample.client (VBool false)))
    as (Hkey & _ & _ & version & Hversion & _ & _ & Hmajor).
  - reflexivity.
  - split; [exact Hkey|]. apply (Hmajor "0" "1.0"); [reflexivity|].
    revert Hversion. by intros [= <-].
Defined.

(** How [new Airtable(opts)] ends: with a TypeError when the API version
    it resolves is not a string; else with the assertion on the API key
    when neither [opts], nor the class, nor [AIRTABLE_API_KEY] gives a
    truthy one; else with a client that holds the first truthy key among
    these. *)
Theorem client_needs_key_and_version cls env opts :
  let key := js_or (js_or (read_prop (js_or opts (VObj ∅)) "apiKey") (apiKey cls))
                   (default VUndefined (env !! "AIRTABLE_API_KEY")) in
  let version := js_or (js_or (read_prop (js_or opts (VObj ∅)) "apiVersion") (apiVersion cls))
                       (VStr "0.1.0") in
  ((∀ s, version ≠ VStr s) → init cls env opts = Throw TypeError) ∧
  ((∃ s, version = VStr s) → truthy key = false →
   init cls env opts = Throw (AssertionError "API key is required to connect to Airtable")) ∧
  ((∃ s, version = VStr s) → truthy key = true →
   ∃ airtable, init cls env opts = Return airtable ∧
               _apiKey airtable = key ∧ _apiVersion airtable = version).
Proof.
  intros key version. rewrite init_resolved. unfold resolved.
  destruct (default_settings env) as (-> & -> & _). fold key version.
  split; [|split].
  - intros Hversion. destruct version; try done. by destruct (Hversion s).
  - intros [s ->] ->. done.
  - intros [s ->] Hkey. rewrite Hkey. by eexists.
Qed.

Lemma client_needs_key_and_version_samples :
  init Sample.no_statics ∅ VUndefined
    = Throw (AssertionError "API key is required to connect to Airtable") ∧
  init Sample.no_statics ∅ (VObj (<["apiKey" := VStr "key"]> {["apiVersion" := VNum 1]}))
    = Throw TypeError.
Proof.
  split.
  - destruct (client_needs_key_and_version Sample.no_statics ∅ VUndefined) as (_ & Hkey & _).
    apply Hkey; [by exists "0.1.0"|reflexivity].
  - destruct (client_needs_key_and_version Sample.no_statics ∅
                (VObj (<["apiKey" := VStr "key"]> {["apiVersion" := VNum 1]})))
      as (Hversion & _).
    apply Hversion. discriminate.
Defined.

(** A falsy setting in [opts] does not override a truthy class-wide one:
    once the class has [noRetryIfRateLimited] or [allowUnauthorizedSsl]
    set, every client has it set, whatever its [opts]; the request
    timeout, which the class does not hold, is that of [opts] or 300000. *)
Theorem class_setting_stays_on cls env opts airtable :
  init cls env opts = Return airtable →
  (truthy (noRetryIfRateLimited cls) = true →
   truthy (_noRetryIfRateLimited airtable) = true) ∧
  (truthy (allowUnauthorizedSsl cls) = true →
   truthy (_allowUnauthorizedSsl airtable) = true) ∧
  (truthy (noRetryIfRateLimited cls) = false →
   truthy (read_prop (js_or opts (VObj ∅)) "noRetryIfRateLimited") = false →
   _noRetryIfRateLimited airtable = VBool false) ∧
  requestTimeout airtable
    = js_or (read_prop (js_or opts (VObj ∅)) "requestTimeout") (VNum 300000).
Proof.
  rewrite init_resolved.
  destruct (resolved (apiVersion cls) "apiVersion" env opts) as [| | | |version| |]; try done.
  destruct (truthy (resolved (apiKey cls) "apiKey" env opts)) eqn:Hkey; [|done].
  intros [= <-]. cbn. unfold resolved.
  destruct (default_settings env) as (_ & _ & _ & -> & -> & _).
  generalize (js_or opts (VObj ∅)). intros o.
  split; [|split; [|split; [|done]]].
  - intros Hcls. unfold js_or at 1. rewrite (js_or_truthy _ _ Hcls). by apply js_or_truthy.
  - intros Hcls. unfold js_or at 1. rewrite (js_or_truthy _ _ Hcls). by apply js_or_truthy.
  - intros Hcls Hopts. unfold js_or. by rewrite Hopts, Hcls.
Qed.

Lemma class_setting_stays_on_no_retry :
  ∃ airtable, init More.statics_no_retry ∅ More.key_retry_false = Return airtable ∧
              truthy (_noRetryIfRateLimited airtable) = true.
Proof.
  exists (Sample.client (VBool true)). split; [reflexivity|].
  destruct (class_setting_stays_on More.statics_no_retry ∅ More.key_retry_false
              (Sample.client (VBool true))) as [Hon _]; [reflexivity|].
  apply Hon. reflexivity.
Defined.

(** [Airtable.configure(opts)] throws on [null] and undefined; the class
    settings it leaves are those of [opts] alone, and a client then
    constructed without options gets its key from them, else from
    [AIRTABLE_API_KEY], and has managed retry off exactly when [opts] says
    so. *)
Theorem configured_clients env opts :
  (is_nullish opts = true → configure opts = Throw TypeError) ∧
  (is_nullish opts = false →
   ∃ cls, configure opts = Return cls ∧
          ∀ airtable, init cls env VUndefined = Return airtable →
            _apiKey airtable = js_or (read_prop opts "apiKey")
                                     (default VUndefined (env !! "AIRTABLE_API_KEY")) ∧
            _noRetryIfRateLimited airtable
              = js_or (read_prop opts "noRetryIfRateLimited") (VBool false)).
Proof.
  unfold configure, get_prop. split; intros ->; [done|].
  eexists. split; [done|]. intros airtable. rewrite init_resolved.
  destruct (resolved _ "apiVersion" env VUndefined) as [| | | |version| |]; try done.
  destruct (truthy (resolved _ "apiKey" env VUndefined)) eqn:Hkey; [|done].
  intros [= <-]. cbn. unfold resolved.
  by destruct (default_settings env) as (_ & -> & _ & _ & -> & _).
Qed.

Lemma configured_clients_no_retry :
  ∃ cls, configure Sample.key_no_retry = Return cls ∧
         init cls ∅ VUndefined = Return (Sample.client (VBool true)).
Proof.
  destruct (configured_clients ∅ Sample.key_no_retry) as [_ Hconfigured].
  destruct (Hconfigured eq_refl) as (cls & Hcls & _).
  exists cls. split; [exact Hcls|]. revert Hcls. by intros [= <-].
Defined.

End ClientConfiguration.
